(** * Exit codes of package [cli]: a shallow embedding of [cli.go]

    The Go package is a table library: an integer type [ExitCode] with
    classification methods, text (un)marshalling, an error type [ExitError]
    that binds a code to a message and a cause, the resolver
    [ResolveExitCode] and the HTTP status tables.

    Conventions of the embedding.
    - [ExitCode] is Go's [int]; it is embedded as [Z].  The classification
      functions never do arithmetic, so they are stated over all of [Z]; the
      decimal parser is where the 64-bit width shows, and it is written out
      there.
    - Go strings and byte slices are [string] (a sequence of bytes).
    - An [error] interface value is [option error]: [None] is the nil
      interface, [Some e] holds a live object. *)

From Stdlib Require Import ZArith Lia Bool List Ascii String.
Import ListNotations.

Open Scope string_scope.
Open Scope Z_scope.

(** * What the package uses of the standard library *)

(** The number of a byte. *)
Definition byte_val (b : ascii) : Z := Z.of_N (N_of_ascii b).

(** ** strings.TrimSpace and the UTF-8 decoding it falls back on *)

Module utf8.

Definition RuneError : Z := 0xFFFD.
Definition RuneSelf : Z := 0x80.
Definition UTFMax : Z := 4.

(** The table [first]: for a leading byte, the length of the sequence and the
    range accepted for the second byte; [None] for a byte that starts no
    sequence.  ASCII bytes are handled before the table is consulted. *)
Definition first (s0 : Z) : option (Z * Z * Z) :=
  if (0xC2 <=? s0) && (s0 <=? 0xDF) then Some (2, 0x80, 0xBF)
  else if s0 =? 0xE0 then Some (3, 0xA0, 0xBF)
  else if (0xE1 <=? s0) && (s0 <=? 0xEC) then Some (3, 0x80, 0xBF)
  else if s0 =? 0xED then Some (3, 0x80, 0x9F)
  else if (0xEE <=? s0) && (s0 <=? 0xEF) then Some (3, 0x80, 0xBF)
  else if s0 =? 0xF0 then Some (4, 0x90, 0xBF)
  else if (0xF1 <=? s0) && (s0 <=? 0xF3) then Some (4, 0x80, 0xBF)
  else if s0 =? 0xF4 then Some (4, 0x80, 0x8F)
  else None.

Definition continuation (b : Z) : bool := (0x80 <=? b) && (b <=? 0xBF).

(** [utf8.DecodeRuneInString]: the first rune of [p] and its width in bytes;
    an invalid or short sequence decodes as [(RuneError, 1)]. *)
Definition DecodeRune (p : list ascii) : Z * nat :=
  match p with
  | [] => (RuneError, 0%nat)
  | b0 :: t =>
      let s0 := byte_val b0 in
      if s0 <? RuneSelf then (s0, 1%nat)
      else
        match first s0 with
        | None => (RuneError, 1%nat)
        | Some (sz, lo, hi) =>
            if Z.of_nat (List.length p) <? sz then (RuneError, 1%nat)
            else
              match t with
              | [] => (RuneError, 1%nat)
              | b1 :: t1 =>
                  let s1 := byte_val b1 in
                  if (s1 <? lo) || (hi <? s1) then (RuneError, 1%nat)
                  else if sz <=? 2
                  then (Z.lor (Z.shiftl (Z.land s0 0x1F) 6) (Z.land s1 0x3F), 2%nat)
                  else
                    match t1 with
                    | [] => (RuneError, 1%nat)
                    | b2 :: t2 =>
                        let s2 := byte_val b2 in
                        if negb (continuation s2) then (RuneError, 1%nat)
                        else if sz <=? 3
                        then (Z.lor (Z.lor (Z.shiftl (Z.land s0 0x0F) 12)
                                           (Z.shiftl (Z.land s1 0x3F) 6))
                                    (Z.land s2 0x3F), 3%nat)
                        else
                          match t2 with
                          | [] => (RuneError, 1%nat)
                          | b3 :: _ =>
                              let s3 := byte_val b3 in
                              if negb (continuation s3) then (RuneError, 1%nat)
                              else (Z.lor (Z.lor (Z.lor (Z.shiftl (Z.land s0 0x07) 18)
                                                        (Z.shiftl (Z.land s1 0x3F) 12))
                                                 (Z.shiftl (Z.land s2 0x3F) 6))
                                          (Z.land s3 0x3F), 4%nat)
                          end
                    end
              end
        end
  end.

(** [utf8.RuneStart]: the byte is not a continuation byte. *)
Definition RuneStart (b : Z) : bool := negb (Z.land b 0xC0 =? 0x80).

(** The backward search of [DecodeLastRuneInString]:
    [for start--; start >= lim; start-- { if RuneStart(s[start]) { break } }]. *)
Fixpoint find_start (fuel : nat) (p : list ascii) (start lim : Z) : Z :=
  match fuel with
  | O => start
  | S fuel' =>
      if start <? lim then start
      else if RuneStart (byte_val (nth (Z.to_nat start) p zero)) then start
      else find_start fuel' p (start - 1) lim
  end.

(** [utf8.DecodeLastRuneInString]: the last rune of [p] and its width. *)
Definition DecodeLastRune (p : list ascii) : Z * nat :=
  let end_ := Z.of_nat (List.length p) in
  if end_ =? 0 then (RuneError, 0%nat)
  else
    let r := byte_val (nth (Z.to_nat (end_ - 1)) p zero) in
    if r <? RuneSelf then (r, 1%nat)
    else
      let lim := Z.max 0 (end_ - UTFMax) in
      let start := find_start 4 p (end_ - 2) lim in
      let start := Z.max 0 start in
      let '(r, size) := DecodeRune (skipn (Z.to_nat start) p) in
      if start + Z.of_nat size =? end_ then (r, size) else (RuneError, 1%nat).

(** [byte(z)]: the low eight bits. *)
Definition to_byte (z : Z) : ascii := ascii_of_N (Z.to_N (z mod 256)).

(** [utf8.EncodeRune]: the bytes that encode a rune. *)
Definition EncodeRune (r : Z) : list ascii :=
  let i := r mod 2 ^ 32 in
  if i <=? 0x7F then [to_byte r]
  else if i <=? 0x7FF
  then [to_byte (Z.lor 0xC0 (Z.shiftr r 6));
        to_byte (Z.lor 0x80 (Z.land r 0x3F))]
  else
    let bad := (0x10FFFF <? i) || ((0xD800 <=? i) && (i <=? 0xDFFF)) in
    let r := if bad then RuneError else r in
    if bad || (i <=? 0xFFFF)
    then [to_byte (Z.lor 0xE0 (Z.shiftr r 12));
          to_byte (Z.lor 0x80 (Z.land (Z.shiftr r 6) 0x3F));
          to_byte (Z.lor 0x80 (Z.land r 0x3F))]
    else [to_byte (Z.lor 0xF0 (Z.shiftr r 18));
          to_byte (Z.lor 0x80 (Z.land (Z.shiftr r 12) 0x3F));
          to_byte (Z.lor 0x80 (Z.land (Z.shiftr r 6) 0x3F));
          to_byte (Z.lor 0x80 (Z.land r 0x3F))].

End utf8.

Module unicode.

(** [unicode.IsSpace]: the Latin-1 cases, then the table [White_Space]. *)
Definition IsSpace (r : Z) : bool :=
  if (0 <=? r) && (r <=? 0xFF)
  then ((9 <=? r) && (r <=? 13)) || (r =? 32) || (r =? 0x85) || (r =? 0xA0)
  else (r =? 0x1680) || ((0x2000 <=? r) && (r <=? 0x200A))
       || (r =? 0x2028) || (r =? 0x2029) || (r =? 0x202F)
       || (r =? 0x205F) || (r =? 0x3000).

End unicode.

Module strings.

(** The table [asciiSpace]: tab, newline, vertical tab, form feed, carriage
    return and space. *)
Definition asciiSpace (c : Z) : bool :=
  ((9 <=? c) && (c <=? 13)) || (c =? 32).

(** [TrimLeftFunc(s, f)]: [s] from its first rune that [f] rejects, by a
    [range] over the string; [skip] counts the bytes still to pass of a rune
    already seen to satisfy [f]. *)
Fixpoint trimLeft (f : Z -> bool) (skip : nat) (s : list ascii) : list ascii :=
  match s with
  | [] => []
  | _ :: s' =>
      match skip with
      | S k => trimLeft f k s'
      | O =>
          let '(r, size) := utf8.DecodeRune s in
          if f r then trimLeft f (size - 1) s' else s
      end
  end.

Definition TrimLeftFunc (s : list ascii) (f : Z -> bool) : list ascii :=
  trimLeft f 0 s.

(** [lastIndexFunc(s, f, false)]: the byte index where the last rune that
    [f] rejects starts; [None] for -1. *)
Fixpoint lastIndexFunc (fuel : nat) (s : list ascii) (f : Z -> bool) (i : nat)
  : option nat :=
  match fuel with
  | O => None
  | S fuel' =>
      match i with
      | O => None
      | S _ =>
          let '(r, size) := utf8.DecodeLastRune (firstn i s) in
          let i' := (i - size)%nat in
          if f r then lastIndexFunc fuel' s f i' else Some i'
      end
  end.

(** [TrimRightFunc(s, f)] *)
Definition TrimRightFunc (s : list ascii) (f : Z -> bool) : list ascii :=
  match lastIndexFunc (List.length s) s f (List.length s) with
  | Some i =>
      if utf8.RuneSelf <=? byte_val (nth i s zero)
      then firstn (i + snd (utf8.DecodeRune (skipn i s))) s
      else firstn (i + 1) s
  | None => []
  end.

Definition TrimFunc (s : list ascii) (f : Z -> bool) : list ascii :=
  TrimRightFunc (TrimLeftFunc s f) f.

(** The second loop of [TrimSpace], on [s[start:]]: [r] is [s[start:stop]]
    read from its end. *)
Fixpoint trimSpace_stop (r : list ascii) : list ascii :=
  match r with
  | [] => []
  | c :: r' =>
      if utf8.RuneSelf <=? byte_val c then TrimRightFunc (rev r) unicode.IsSpace
      else if asciiSpace (byte_val c) then trimSpace_stop r'
      else rev r
  end.

(** The first loop of [TrimSpace], followed by the second. *)
Fixpoint trimSpace_start (s : list ascii) : list ascii :=
  match s with
  | [] => []
  | c :: s' =>
      if utf8.RuneSelf <=? byte_val c then TrimFunc s unicode.IsSpace
      else if asciiSpace (byte_val c) then trimSpace_start s'
      else trimSpace_stop (rev s)
  end.

(** [strings.TrimSpace] *)
Definition TrimSpace (s : string) : string :=
  string_of_list_ascii (trimSpace_start (list_ascii_of_string s)).

End strings.

(** ** strconv: [Itoa] and [Atoi] *)

Module strconv.

(** The byte ['0' + d]. *)
Definition digit (d : Z) : ascii := ascii_of_N (Z.to_N (48 + d)).

(** The digit loop of [formatBits] in base 10:
    [for u >= 10 { q := u / 10; a[i] = '0' + u - q*10; u = q }; a[i] = '0' + u],
    writing the buffer from its end.  A [uint64] has at most 20 digits. *)
Fixpoint formatBits (fuel : nat) (u : Z) (acc : string) : string :=
  match fuel with
  | O => acc
  | S fuel' =>
      if 10 <=? u
      then formatBits fuel' (u / 10) (String (digit (u - (u / 10) * 10)) acc)
      else String (digit u) acc
  end.

(** [small]: the table lookup for [0 <= i < 100]. *)
Definition small (i : Z) : string :=
  if i <? 10 then String (digit i) ""
  else String (digit (i / 10)) (String (digit (i mod 10)) "").

(** [strconv.Itoa(i) = FormatInt(int64(i), 10)]. *)
Definition Itoa (i : Z) : string :=
  if (0 <=? i) && (i <? 100) then small i
  else if i <? 0 then String "-"%char (formatBits 20 (- i) "")
  else formatBits 20 i "".


(** [NumError.Err]: the two failures of the integer parsers. *)
Inductive NumError : Type := ErrSyntax | ErrRange.

(** [strconv.IntSize] of a 64-bit target. *)
Definition intSize : Z := 64.

(** Go's [int]: a result that leaves the 64-bit range wraps around. *)
Definition wrap_int (z : Z) : Z := (z + 2 ^ 63) mod 2 ^ 64 - 2 ^ 63.

(** Go's [uint64] and [byte] arithmetic. *)
Definition wrap_uint64 (z : Z) : Z := z mod 2 ^ 64.
Definition wrap_byte (z : Z) : Z := z mod 256.

(** The loop of the fast path of [Atoi]:
    [for _, ch := range []byte(s) { ch -= '0'; if ch > 9 { syntax error };
      n = n*10 + int(ch) }]. *)
Fixpoint atoi_loop (s : string) (n : Z) : Z + NumError :=
  match s with
  | EmptyString => inl n
  | String ch s' =>
      let d := wrap_byte (byte_val ch - 48) in
      if 9 <? d then inr ErrSyntax
      else atoi_loop s' (wrap_int (n * 10 + d))
  end.

Definition lower (c : Z) : Z := Z.lor c 0x20.

(** The loop of [ParseUint(s, 10, 0)]: [cutoff] is [maxUint64/10 + 1], [maxVal]
    is [1<<64 - 1], and the underscore case is off since the base is given. *)
Fixpoint parseUint_loop (s : string) (n : Z) : Z + NumError :=
  match s with
  | EmptyString => inl n
  | String ch s' =>
      let c := byte_val ch in
      let d := if (48 <=? c) && (c <=? 57) then Some (c - 48)
               else if (97 <=? lower c) && (lower c <=? 122)
                    then Some (wrap_byte (lower c - 97 + 10))
                    else None in
      match d with
      | None => inr ErrSyntax
      | Some d =>
          if 10 <=? d then inr ErrSyntax
          else if (2 ^ 64 - 1) / 10 + 1 <=? n then inr ErrRange
          else
            let n' := wrap_uint64 (n * 10) in
            let n1 := wrap_uint64 (n' + d) in
            if (n1 <? n') || (2 ^ 64 - 1 <? n1) then inr ErrRange
            else parseUint_loop s' n1
      end
  end.

Definition ParseUint (s : string) : Z + NumError :=
  match s with
  | EmptyString => inr ErrSyntax
  | _ => parseUint_loop s 0
  end.

(** [ParseInt(s, 10, 0)].  The value Go returns next to an error is not kept:
    its caller here reads the value only when the error is nil. *)
Definition ParseInt (s : string) : Z + NumError :=
  match s with
  | EmptyString => inr ErrSyntax
  | String c rest =>
      let neg := (byte_val c =? 45) in
      let s1 := if (byte_val c =? 43) || neg then rest else s in
      match ParseUint s1 with
      | inr e => inr e
      | inl un =>
          let cutoff := 2 ^ (intSize - 1) in
          if negb neg && (cutoff <=? un) then inr ErrRange
          else if neg && (cutoff <? un) then inr ErrRange
          else inl (if neg then wrap_int (- wrap_int un) else wrap_int un)
      end
  end.

(** [strconv.Atoi] *)
Definition Atoi (s : string) : Z + NumError :=
  let sLen := Z.of_nat (String.length s) in
  if (0 <? sLen) && (sLen <? 19) then
    match s with
    | EmptyString => inr ErrSyntax
    | String c rest =>
        let signed := (byte_val c =? 45) || (byte_val c =? 43) in
        let s1 := if signed then rest else s in
        if signed && (Z.of_nat (String.length s1) <? 1) then inr ErrSyntax
        else
          match atoi_loop s1 0 with
          | inr e => inr e
          | inl n => inl (if byte_val c =? 45 then wrap_int (- n) else n)
          end
    end
  else ParseInt s.

End strconv.

(** * Package cli *)

(** ** The code registry *)

Definition ExitCode := Z.

Definition Category := string.

Definition CategorySuccess : Category := "success".
Definition CategoryGeneral : Category := "general".
Definition CategoryUserError : Category := "user_error".
Definition CategoryCLIExtended : Category := "cli_extended".
Definition CategorySystemSignal : Category := "system_signal".
Definition CategoryUnknown : Category := "unknown".

Definition ExitCodeSuccess : ExitCode := 0.
Definition ExitCodeErrorInternal : ExitCode := 1.
Definition ExitCodeError : ExitCode := 1.
Definition ExitCodeInvalidArgument : ExitCode := 2.
Definition ExitCodeUsageError : ExitCode := 2.
Definition ExitCodeCmdUsage : ExitCode := 64.
Definition ExitCodeDataError : ExitCode := 65.
Definition ExitCodeNoInput : ExitCode := 66.
Definition ExitCodeNoUser : ExitCode := 67.
Definition ExitCodeNoHost : ExitCode := 68.
Definition ExitCodeUnavailable : ExitCode := 69.
Definition ExitCodeSoftware : ExitCode := 70.
Definition ExitCodeOSError : ExitCode := 71.
Definition ExitCodeOSFile : ExitCode := 72.
Definition ExitCodeCantCreate : ExitCode := 73.
Definition ExitCodeIOError : ExitCode := 74.
Definition ExitCodeTempFail : ExitCode := 75.
Definition ExitCodeProtocol : ExitCode := 76.
Definition ExitCodeNoPermission : ExitCode := 77.
Definition ExitCodeConfig : ExitCode := 78.
Definition ExitCodeAuthRequired : ExitCode := 80.
Definition ExitCodeAuthFailed : ExitCode := 81.
Definition ExitCodeForbidden : ExitCode := 82.
Definition ExitCodeNotFound : ExitCode := 83.
Definition ExitCodeConflict : ExitCode := 84.
Definition ExitCodeValidation : ExitCode := 85.
Definition ExitCodeRateLimit : ExitCode := 86.
Definition ExitCodeQuotaExceeded : ExitCode := 87.
Definition ExitCodeInterrupted : ExitCode := 130.
Definition ExitCodeTerminated : ExitCode := 143.

(** The [case] labels of [ExitCode.String], in the order of the [switch]. *)
Definition descriptions : list (ExitCode * string) :=
  [ (ExitCodeSuccess, "Success");
    (ExitCodeErrorInternal, "Internal error");
    (ExitCodeInvalidArgument, "Invalid argument");
    (ExitCodeCmdUsage, "Command usage error");
    (ExitCodeDataError, "Data format error");
    (ExitCodeNoInput, "Input file not found");
    (ExitCodeNoUser, "User not found");
    (ExitCodeNoHost, "Host not found");
    (ExitCodeUnavailable, "Service unavailable");
    (ExitCodeSoftware, "Internal software error");
    (ExitCodeOSError, "Operating system error");
    (ExitCodeOSFile, "System file error");
    (ExitCodeCantCreate, "Cannot create output file");
    (ExitCodeIOError, "I/O error");
    (ExitCodeTempFail, "Temporary failure");
    (ExitCodeProtocol, "Protocol error");
    (ExitCodeNoPermission, "Permission denied");
    (ExitCodeConfig, "Configuration error");
    (ExitCodeAuthRequired, "Authentication required");
    (ExitCodeAuthFailed, "Authentication failed");
    (ExitCodeForbidden, "Forbidden");
    (ExitCodeNotFound, "Not found");
    (ExitCodeConflict, "Conflict");
    (ExitCodeValidation, "Validation error");
    (ExitCodeRateLimit, "Rate limit exceeded");
    (ExitCodeQuotaExceeded, "Quota exceeded");
    (ExitCodeInterrupted, "Interrupted by user");
    (ExitCodeTerminated, "Terminated by system") ].

(** A [switch] over constant labels: the first label equal to [c] is taken. *)
Fixpoint switch_on {A : Type} (c : Z) (cases : list (Z * A)) (default : A) : A :=
  match cases with
  | [] => default
  | (label, body) :: rest => if c =? label then body else switch_on c rest default
  end.

(** [func (c ExitCode) String() string]; the default branch is
    [fmt.Sprintf("Unknown exit code: %d", int(c))]. *)
Definition ExitCode_String (c : ExitCode) : string :=
  switch_on c descriptions ("Unknown exit code: " ++ strconv.Itoa c).

(** [func (c ExitCode) Category() Category] *)
Definition ExitCode_Category (c : ExitCode) : Category :=
  if c =? 0 then CategorySuccess
  else if (1 <=? c) && (c <=? 63) then CategoryGeneral
  else if (64 <=? c) && (c <=? 79) then CategoryUserError
  else if (80 <=? c) && (c <=? 99) then CategoryCLIExtended
  else if 128 <=? c then CategorySystemSignal
  else CategoryUnknown.

(** [func (c ExitCode) IsRetriable() bool] *)
Definition ExitCode_IsRetriable (c : ExitCode) : bool :=
  if (c =? ExitCodeTempFail) || (c =? ExitCodeUnavailable)
     || (c =? ExitCodeIOError) || (c =? ExitCodeRateLimit)
  then true else false.

(** [func (c ExitCode) IsUserError() bool] *)
Definition ExitCode_IsUserError (c : ExitCode) : bool :=
  if (c =? ExitCodeInvalidArgument) || (c =? ExitCodeCmdUsage)
     || (c =? ExitCodeDataError) || (c =? ExitCodeNoInput)
     || (c =? ExitCodeNoUser) || (c =? ExitCodeNoHost)
     || (c =? ExitCodeNoPermission) || (c =? ExitCodeConfig)
     || (c =? ExitCodeNotFound) || (c =? ExitCodeValidation)
  then true else false.

(** ** HTTP status tables *)

(** [func FromHTTPStatus(status int) ExitCode] *)
Definition FromHTTPStatus (status : Z) : ExitCode :=
  if (status =? 200) || (status =? 201) || (status =? 202) || (status =? 204)
  then ExitCodeSuccess
  else if status =? 400 then ExitCodeDataError
  else if status =? 401 then ExitCodeAuthFailed
  else if status =? 403 then ExitCodeForbidden
  else if status =? 404 then ExitCodeNotFound
  else if status =? 409 then ExitCodeConflict
  else if (status =? 412) || (status =? 422) then ExitCodeValidation
  else if status =? 423 then ExitCodeForbidden
  else if status =? 429 then ExitCodeRateLimit
  else if status =? 500 then ExitCodeSoftware
  else if (status =? 501) || (status =? 502) || (status =? 503) || (status =? 504)
  then ExitCodeUnavailable
  else if (200 <=? status) && (status <? 300) then ExitCodeSuccess
  else if (400 <=? status) && (status <? 500) then ExitCodeDataError
  else if 500 <=? status then ExitCodeUnavailable
  else ExitCodeErrorInternal.

(** The [case] labels of [ToHTTPStatus]: the codes with a designated status. *)
Definition http_of_code : list (ExitCode * Z) :=
  [ (ExitCodeSuccess, 200);
    (ExitCodeInvalidArgument, 400); (ExitCodeCmdUsage, 400);
    (ExitCodeDataError, 400); (ExitCodeValidation, 400);
    (ExitCodeAuthRequired, 401); (ExitCodeAuthFailed, 401);
    (ExitCodeForbidden, 403); (ExitCodeNoPermission, 403);
    (ExitCodeNotFound, 404); (ExitCodeNoInput, 404);
    (ExitCodeConflict, 409);
    (ExitCodeRateLimit, 429); (ExitCodeQuotaExceeded, 429);
    (ExitCodeUnavailable, 503); (ExitCodeTempFail, 503);
    (ExitCodeSoftware, 500); (ExitCodeOSError, 500);
    (ExitCodeIOError, 500); (ExitCodeErrorInternal, 500) ].

(** [func ToHTTPStatus(code ExitCode) int]; the default branch returns 500. *)
Definition ToHTTPStatus (code : ExitCode) : Z :=
  switch_on code http_of_code 500.

(** A code has a designated status when a [case] of [ToHTTPStatus] lists it. *)
Definition designated (code : ExitCode) : bool :=
  existsb (fun kv => code =? fst kv) http_of_code.

(** ** Text form of a code *)

(** [func (c ExitCode) MarshalText() ([]byte, error)]; the error is always nil. *)
Definition ExitCode_MarshalText (c : ExitCode) : string := strconv.Itoa c.

(** The error of [UnmarshalText], [fmt.Errorf("invalid exit code text: %q", s)],
    kept as the argument it quotes. *)
Inductive text_error : Type :=
| InvalidExitCodeText (s : string).

(** [func (c *ExitCode) UnmarshalText(text []byte) error]: the receiver's
    value before the call goes in, its value after the call and the error
    come out. *)
Definition ExitCode_UnmarshalText (c : ExitCode) (text : string)
  : ExitCode * option text_error :=
  let s := strings.TrimSpace text in
  if String.eqb s "" then (ExitCodeSuccess, None)
  else
    match strconv.Atoi s with
    | inr _ => (c, Some (InvalidExitCodeText s))
    | inl n => (n, None)
    end.

(** ** Error values *)

(** The identity of an [errors.New] value, which Go compares by pointer: a
    package-level variable, or an allocation made elsewhere. *)
Inductive ident : Type :=
| Global (name : string)
| Local (n : nat).

Definition ident_eqb (a b : ident) : bool :=
  match a, b with
  | Global x, Global y => String.eqb x y
  | Local x, Local y => Nat.eqb x y
  | _, _ => false
  end.

#[local] Set Warnings "-register-all".

(** The dynamic types an [error] interface holds here: the package's own
    [*ExitError]; the values of [errors.New] and of [fmt.Errorf] with one
    [%w]; and from the standard library what [ResolveExitCode] looks for:
    [context]'s deadline error, [syscall.Errno], the three wrappers that
    package [os] unwraps, and an implementation of [net.Error] given by what
    its methods report.  A chain is what [Unwrap() error] yields, step by
    step; an interface holding a nil pointer is not a value of this type. *)
Inductive error : Type :=
| errorString (id : ident) (s : string)
| wrapError (msg : string) (err : error)
| deadlineExceededError
| Errno (e : Z)
| PathError (Op Path : string) (Err : error)
| LinkError (Op Old New : string) (Err : error)
| SyscallError (Syscall : string) (Err : error)
| netError (msg : string) (timeout temporary : bool) (wrapped : option error)
| ptrExitError (e : ExitError)
(** [type ExitError struct { Code ExitCode; Message string; Cause error }] *)
with ExitError : Type :=
| mkExitError (Code : ExitCode) (Message : string) (Cause : option error).

Definition Code (e : ExitError) : ExitCode := let 'mkExitError c _ _ := e in c.
Definition Message (e : ExitError) : string := let 'mkExitError _ m _ := e in m.
Definition Cause (e : ExitError) : option error := let 'mkExitError _ _ c := e in c.

(** *** Package-level error variables *)

Definition ErrInternal : error := errorString (Global "cli.ErrInternal") "internal error".
Definition ErrInvalid : error := errorString (Global "cli.ErrInvalid") "invalid argument".
Definition ErrUsage : error := errorString (Global "cli.ErrUsage") "usage error".
Definition ErrDataFormat : error := errorString (Global "cli.ErrDataFormat") "data format error".
Definition ErrNotFound : error := errorString (Global "cli.ErrNotFound") "not found".
Definition ErrNoPermission : error := errorString (Global "cli.ErrNoPermission") "permission denied".
Definition ErrConfig : error := errorString (Global "cli.ErrConfig") "configuration error".
Definition ErrAuth : error := errorString (Global "cli.ErrAuth") "authentication error".
Definition ErrForbidden : error := errorString (Global "cli.ErrForbidden") "forbidden".
Definition ErrValidation : error := errorString (Global "cli.ErrValidation") "validation error".
Definition ErrIO : error := errorString (Global "cli.ErrIO") "I/O error".
Definition ErrUnavailable : error := errorString (Global "cli.ErrUnavailable") "service unavailable".
Definition ErrTempFail : error := errorString (Global "cli.ErrTempFail") "temporary failure".

Module context.
Definition Canceled : error := errorString (Global "context.Canceled") "context canceled".
Definition DeadlineExceeded : error := deadlineExceededError.
End context.

Module oserror.
Definition ErrInvalid : error := errorString (Global "oserror.ErrInvalid") "invalid argument".
Definition ErrPermission : error := errorString (Global "oserror.ErrPermission") "permission denied".
Definition ErrExist : error := errorString (Global "oserror.ErrExist") "file already exists".
Definition ErrNotExist : error := errorString (Global "oserror.ErrNotExist") "file does not exist".
Definition ErrClosed : error := errorString (Global "oserror.ErrClosed") "file already closed".
End oserror.

(** *** Package syscall: [Errno] (the numbers are those of linux) *)

Module syscall.

Definition EPERM : Z := 1.
Definition ENOENT : Z := 2.
Definition EINTR : Z := 4.
Definition EAGAIN : Z := 11.
Definition EWOULDBLOCK : Z := 11.
Definition EACCES : Z := 13.
Definition EEXIST : Z := 17.
Definition ENFILE : Z := 23.
Definition EMFILE : Z := 24.
Definition ENOSYS : Z := 38.
Definition ENOTEMPTY : Z := 39.
Definition ENOTSUP : Z := 95.
Definition EOPNOTSUPP : Z := 95.
Definition ETIMEDOUT : Z := 110.

Definition ErrUnsupported : error :=
  errorString (Global "errors.ErrUnsupported") "unsupported operation".

(** [func (e Errno) Timeout() bool] *)
Definition Timeout (e : Z) : bool :=
  (e =? EAGAIN) || (e =? EWOULDBLOCK) || (e =? ETIMEDOUT).

(** [func (e Errno) Temporary() bool] *)
Definition Temporary (e : Z) : bool :=
  (e =? EINTR) || (e =? EMFILE) || (e =? ENFILE) || Timeout e.

End syscall.

(** *** Interface equality, [Unwrap], [errors.Is] and [errors.As] *)

(** [err == target] on interface values, for a [target] that is an
    [errors.New] value, the deadline error or an [Errno]: the same pointer, or
    equal values of the same type.  The wrapper types are pointers whose
    address the embedding does not keep; no comparison in [cli.go] has one as
    its target. *)
Definition same (err target : error) : bool :=
  match err, target with
  | errorString a _, errorString b _ => ident_eqb a b
  | deadlineExceededError, deadlineExceededError => true
  | Errno a, Errno b => a =? b
  | _, _ => false
  end.

(** [func (e Errno) Is(target error) bool] *)
Definition Errno_Is (e : Z) (target : error) : bool :=
  if same target oserror.ErrPermission
  then (e =? syscall.EACCES) || (e =? syscall.EPERM)
  else if same target oserror.ErrExist
  then (e =? syscall.EEXIST) || (e =? syscall.ENOTEMPTY)
  else if same target oserror.ErrNotExist
  then e =? syscall.ENOENT
  else if same target syscall.ErrUnsupported
  then (e =? syscall.ENOSYS) || (e =? syscall.ENOTSUP) || (e =? syscall.EOPNOTSUPP)
  else false.

(** The [Is(error) bool] method, for the one type that has it. *)
Definition method_Is (err target : error) : bool :=
  match err with
  | Errno e => Errno_Is e target
  | _ => false
  end.

(** The [Unwrap() error] method: what it returns, [None] also when the type
    has no such method. *)
Definition Unwrap (err : error) : option error :=
  match err with
  | wrapError _ e | PathError _ _ e | LinkError _ _ _ e | SyscallError _ e => Some e
  | netError _ _ _ w => w
  | ptrExitError e => Cause e
  | errorString _ _ | deadlineExceededError | Errno _ => None
  end.

(** The loop of [errors.Is], for a non-nil [err] and [target]. *)
Fixpoint errors_is (err target : error) : bool :=
  same err target || method_Is err target ||
  match err with
  | wrapError _ e | PathError _ _ e | LinkError _ _ _ e | SyscallError _ e =>
      errors_is e target
  | netError _ _ _ (Some e) => errors_is e target
  | ptrExitError (mkExitError _ _ (Some e)) => errors_is e target
  | _ => false
  end.

(** [errors.Is] *)
Definition errors_Is (err target : option error) : bool :=
  match err, target with
  | Some e, Some t => errors_is e t
  | None, None => true
  | _, _ => false
  end.

(** [errors.As(err, &exitErr)] with [var exitErr *ExitError]: the first value
    of the chain whose type is [*ExitError]. *)
Fixpoint as_ExitError (err : error) : option ExitError :=
  match err with
  | ptrExitError e => Some e
  | wrapError _ e | PathError _ _ e | LinkError _ _ _ e | SyscallError _ e =>
      as_ExitError e
  | netError _ _ _ (Some e) => as_ExitError e
  | _ => None
  end.

(** The types whose method set holds [Timeout() bool] and [Temporary() bool]
    next to [Error() string]: they implement [net.Error]. *)
Definition implements_net_Error (err : error) : bool :=
  match err with
  | netError _ _ _ _ | Errno _ | deadlineExceededError => true
  | _ => false
  end.

(** [errors.As(err, &ne)] with [var ne net.Error]. *)
Fixpoint as_net_Error (err : error) : option error :=
  if implements_net_Error err then Some err
  else
    match err with
    | wrapError _ e | PathError _ _ e | LinkError _ _ _ e | SyscallError _ e =>
        as_net_Error e
    | ptrExitError (mkExitError _ _ (Some e)) => as_net_Error e
    | _ => None
    end.

(** The methods of a [net.Error]. *)
Definition Timeout (ne : error) : bool :=
  match ne with
  | netError _ t _ _ => t
  | Errno e => syscall.Timeout e
  | deadlineExceededError => true
  | _ => false
  end.

Definition Temporary (ne : error) : bool :=
  match ne with
  | netError _ _ t _ => t
  | Errno e => syscall.Temporary e
  | deadlineExceededError => true
  | _ => false
  end.

(** *** Package os: [IsNotExist] and [IsPermission] *)

Module os.

(** [underlyingError]: one step, through the three wrappers of package os. *)
Definition underlyingError (err : error) : error :=
  match err with
  | PathError _ _ e | LinkError _ _ _ e | SyscallError _ e => e
  | _ => err
  end.

(** [underlyingErrorIs]: not [errors.Is]; only an [Errno] is asked. *)
Definition underlyingErrorIs (err target : error) : bool :=
  let err := underlyingError err in
  same err target ||
  match err with
  | Errno e => Errno_Is e target
  | _ => false
  end.

Definition IsNotExist (err : error) : bool := underlyingErrorIs err oserror.ErrNotExist.
Definition IsPermission (err : error) : bool := underlyingErrorIs err oserror.ErrPermission.

End os.

(** ** The resolver *)

(** [func ResolveExitCode(err error) ExitCode] *)
Definition ResolveExitCode (err : option error) : ExitCode :=
  match err with
  | None => ExitCodeSuccess
  | Some err =>
      match as_ExitError err with
      | Some exitErr => Code exitErr
      | None =>
          if errors_is err context.Canceled then ExitCodeInterrupted
          else if errors_is err context.DeadlineExceeded then ExitCodeTempFail
          else if os.IsNotExist err then ExitCodeNoInput
          else if os.IsPermission err then ExitCodeNoPermission
          else
            match as_net_Error err with
            | Some ne =>
                if Timeout ne then ExitCodeTempFail
                else if Temporary ne then ExitCodeTempFail
                else ExitCodeUnavailable
            | None =>
                if errors_is err ErrInternal then ExitCodeErrorInternal
                else if errors_is err ErrInvalid then ExitCodeInvalidArgument
                else if errors_is err ErrUsage then ExitCodeUsageError
                else if errors_is err ErrDataFormat then ExitCodeDataError
                else if errors_is err ErrNotFound then ExitCodeNotFound
                else if errors_is err ErrNoPermission then ExitCodeNoPermission
                else if errors_is err ErrConfig then ExitCodeConfig
                else if errors_is err ErrAuth then ExitCodeAuthFailed
                else if errors_is err ErrForbidden then ExitCodeForbidden
                else if errors_is err ErrValidation then ExitCodeValidation
                else if errors_is err ErrIO then ExitCodeIOError
                else if errors_is err ErrUnavailable then ExitCodeUnavailable
                else if errors_is err ErrTempFail then ExitCodeTempFail
                else ExitCodeErrorInternal
            end
      end
  end.

(** [func OSExitCode(err error) int] *)
Definition OSExitCode (err : option error) : Z := ResolveExitCode err.

(** ** Rendering, construction and the structured record *)

Section Rendering.

(** Package syscall's table [errors] of messages, indexed by errno. *)
Variable errno_messages : list string.

(** [func (e Errno) Error() string] *)
Definition Errno_Error (e : Z) : string :=
  let s := if (0 <=? e) && (e <? Z.of_nat (List.length errno_messages))
           then nth (Z.to_nat e) errno_messages ""
           else "" in
  if String.eqb s "" then "errno " ++ strconv.Itoa e else s.

(** The [Error() string] method of every type; the one of [ExitError] is
    the second function. *)
Fixpoint Error (err : error) : string :=
  match err with
  | errorString _ s => s
  | wrapError msg _ => msg
  | deadlineExceededError => "context deadline exceeded"
  | Errno e => Errno_Error e
  | PathError op path e => op ++ " " ++ path ++ ": " ++ Error e
  | LinkError op old new e => op ++ " " ++ old ++ " " ++ new ++ ": " ++ Error e
  | SyscallError sc e => sc ++ ": " ++ Error e
  | netError msg _ _ _ => msg
  | ptrExitError e => ExitError_Error e
  end
(** [func (e *ExitError) Error() string] *)
with ExitError_Error (e : ExitError) : string :=
  match e with
  | mkExitError code message cause =>
      if negb (String.eqb message "") then message
      else
        match cause with
        | Some c => Error c
        | None => ExitCode_String code
        end
  end.

(** [func WithCode(err error, code ExitCode) *ExitError]; [None] is the nil
    pointer. *)
Definition WithCode (err : option error) (code : ExitCode) : option ExitError :=
  match err with
  | None => None
  | Some e => Some (mkExitError code (Error e) (Some e))
  end.

(** What [json.Marshal] writes for the struct [alias]: its fields in the
    order of declaration, each under its key; the byte encoding of a value
    (escaping inside a string) is not part of the record. *)
Inductive json_value : Type :=
| JNumber (n : Z)
| JString (s : string).

Definition json_object : Type := list (string * json_value).

(** A string field tagged [omitempty] is left out when it is empty. *)
Definition omitempty (key value : string) : json_object :=
  if String.eqb value "" then [] else [(key, JString value)].

(** [func (e *ExitError) MarshalJSON() ([]byte, error)]; the error is nil. *)
Definition ExitError_MarshalJSON (e : ExitError) : json_object :=
  let cause := match Cause e with
               | Some c => Error c
               | None => ""
               end in
  ([ ("code", JNumber (Code e));
     ("name", JString (ExitCode_String (Code e)));
     ("category", JString (ExitCode_Category (Code e)));
     ("message", JString (ExitError_Error e)) ]
   ++ omitempty "cause" cause)%list.

End Rendering.

(** The member of an object under a key. *)
Fixpoint json_get (key : string) (o : json_object) : option json_value :=
  match o with
  | [] => None
  | (k, v) :: rest => if String.eqb k key then Some v else json_get key rest
  end.

(** [func (e *ExitError) Unwrap() error] *)
Definition ExitError_Unwrap (e : ExitError) : option error := Cause e.

(** [func NewExitError(code ExitCode, message string, cause error) *ExitError] *)
Definition NewExitError (code : ExitCode) (message : string) (cause : option error)
  : ExitError :=
  mkExitError code message cause.

(** *** Helper functions *)

Definition UsageError (message : string) : ExitError :=
  NewExitError ExitCodeUsageError message (Some ErrUsage).

Definition ValidationError (message : string) : ExitError :=
  NewExitError ExitCodeValidation message (Some ErrValidation).

Definition ConfigError (message : string) : ExitError :=
  NewExitError ExitCodeConfig message (Some ErrConfig).

(** [fmt.Sprintf("%s not found", resource)] *)
Definition NotFoundError (resource : string) : ExitError :=
  NewExitError ExitCodeNotFound (resource ++ " not found") (Some ErrNotFound).

(** [fmt.Sprintf("permission denied: %s", action)] *)
Definition PermissionError (action : string) : ExitError :=
  NewExitError ExitCodeNoPermission ("permission denied: " ++ action) (Some ErrNoPermission).

Definition AuthError (message : string) : ExitError :=
  NewExitError ExitCodeAuthFailed message (Some ErrAuth).

Definition TempFailError (message : string) : ExitError :=
  NewExitError ExitCodeTempFail message (Some ErrTempFail).

(** The seven helpers, each with the code and the cause it binds. *)
Definition helpers : list ((string -> ExitError) * ExitCode * error) :=
  [ (UsageError, ExitCodeUsageError, ErrUsage);
    (ValidationError, ExitCodeValidation, ErrValidation);
    (ConfigError, ExitCodeConfig, ErrConfig);
    (NotFoundError, ExitCodeNotFound, ErrNotFound);
    (PermissionError, ExitCodeNoPermission, ErrNoPermission);
    (AuthError, ExitCodeAuthFailed, ErrAuth);
    (TempFailError, ExitCodeTempFail, ErrTempFail) ].

(** ** The resolution rules as the specification words them *)

(** The chain of an error: the error and, transitively, what it wraps. *)
Fixpoint chain (err : error) : list error :=
  err ::
  match err with
  | wrapError _ e | PathError _ _ e | LinkError _ _ _ e | SyscallError _ e => chain e
  | netError _ _ _ (Some e) => chain e
  | ptrExitError (mkExitError _ _ (Some e)) => chain e
  | _ => []
  end.

Definition is_ExitError (err : error) : bool :=
  match err with
  | ptrExitError _ => true
  | _ => false
  end.

(** The chain contains an [ExitError]: the first one met. *)
Definition chain_ExitError (err : error) : option ExitError :=
  match find is_ExitError (chain err) with
  | Some (ptrExitError x) => Some x
  | _ => None
  end.

(** The chain matches a sentinel: some value of the chain is the sentinel
    itself (identity, not text). *)
Definition chain_matches (err sentinel : error) : bool :=
  existsb (fun e => same e sentinel) (chain err).

(** The error exposes the network-error capability: the first value of the
    chain that has it. *)
Definition net_capability (err : error) : option error :=
  find implements_net_Error (chain err).

(** A does-not-exist OS condition: the variable [ErrNotExist] or the errno
    [ENOENT], bare or held directly by one of the three wrappers of package
    os. *)
Definition not_exist_condition (err : error) : bool :=
  match os.underlyingError err with
  | errorString id _ => ident_eqb id (Global "oserror.ErrNotExist")
  | Errno n => n =? syscall.ENOENT
  | _ => false
  end.

(** A permission-denied OS condition: the variable [ErrPermission] or one of
    the errnos [EACCES] and [EPERM], bare or held in the same way. *)
Definition permission_condition (err : error) : bool :=
  match os.underlyingError err with
  | errorString id _ => ident_eqb id (Global "oserror.ErrPermission")
  | Errno n => (n =? syscall.EACCES) || (n =? syscall.EPERM)
  | _ => false
  end.

(** The predefined sentinel causes and the code bound to each. *)
Definition sentinel_codes : list (error * ExitCode) :=
  [ (ErrInternal, ExitCodeErrorInternal);
    (ErrInvalid, ExitCodeInvalidArgument);
    (ErrUsage, ExitCodeUsageError);
    (ErrDataFormat, ExitCodeDataError);
    (ErrNotFound, ExitCodeNotFound);
    (ErrNoPermission, ExitCodeNoPermission);
    (ErrConfig, ExitCodeConfig);
    (ErrAuth, ExitCodeAuthFailed);
    (ErrForbidden, ExitCodeForbidden);
    (ErrValidation, ExitCodeValidation);
    (ErrIO, ExitCodeIOError);
    (ErrUnavailable, ExitCodeUnavailable);
    (ErrTempFail, ExitCodeTempFail) ].

(** The nine rules in their priority order, first match wins. *)
Definition resolve_spec (err : option error) : ExitCode :=
  match err with
  | None => ExitCodeSuccess
  | Some e =>
      match chain_ExitError e with
      | Some x => Code x
      | None =>
          if chain_matches e context.Canceled then ExitCodeInterrupted
          else if chain_matches e context.DeadlineExceeded then ExitCodeTempFail
          else if not_exist_condition e then ExitCodeNoInput
          else if permission_condition e then ExitCodeNoPermission
          else
            match net_capability e with
            | Some ne =>
                if Timeout ne || Temporary ne then ExitCodeTempFail
                else ExitCodeUnavailable
            | None =>
                match find (fun sc => chain_matches e (fst sc)) sentinel_codes with
                | Some sc => snd sc
                | None => ExitCodeErrorInternal
                end
            end
      end
  end.

(** ** Texts: white space, digits and numerals *)

(** The bytes of a sequence of runes. *)
Definition encode (runes : list Z) : list ascii := flat_map utf8.EncodeRune runes.

(** A white-space-only text, the empty text among them: the encoding of a
    sequence of white-space runes. *)
Definition blank (s : string) : Prop :=
  exists runes,
    Forall (fun r => unicode.IsSpace r = true) runes /\
    list_ascii_of_string s = encode runes.

(** The white-space runes, by number. *)
Definition white_space : list Z :=
  [ 0x09; 0x0A; 0x0B; 0x0C; 0x0D; 0x20; 0x85; 0xA0; 0x1680;
    0x2000; 0x2001; 0x2002; 0x2003; 0x2004; 0x2005; 0x2006; 0x2007; 0x2008;
    0x2009; 0x200A; 0x2028; 0x2029; 0x202F; 0x205F; 0x3000 ].

(** A byte below [0x80] that is not white space; the digits and the signs are
    such bytes. *)
Definition visible (b : ascii) : bool :=
  (byte_val b <? utf8.RuneSelf) && negb (strings.asciiSpace (byte_val b)).

(** A text that neither starts nor ends with white space or with a byte of a
    multi-byte sequence. *)
Definition trimmed (s : string) : Prop :=
  match list_ascii_of_string s with
  | [] => True
  | b :: t => visible b = true /\ visible (last t b) = true
  end.

Definition is_digit (b : ascii) : bool :=
  (48 <=? byte_val b) && (byte_val b <=? 57).

Fixpoint all_digits (s : string) : bool :=
  match s with
  | EmptyString => true
  | String b s' => is_digit b && all_digits s'
  end.

(** A decimal numeral: an optional sign and at least one digit, digits only. *)
Definition numeral (s : string) : bool :=
  match s with
  | EmptyString => false
  | String b rest =>
      if (byte_val b =? 43) || (byte_val b =? 45)
      then negb (String.eqb rest "") && all_digits rest
      else all_digits s
  end.

(** The number that a string of digits denotes, continuing from [n]. *)
Fixpoint digits_value (s : string) (n : Z) : Z :=
  match s with
  | EmptyString => n
  | String b s' => digits_value s' (n * 10 + (byte_val b - 48))
  end.

(** The largest [int]. *)
Definition maxInt : Z := 2 ^ (strconv.intSize - 1) - 1.

(** ** More of the package *)

(** The smallest [int]. *)
Definition minInt : Z := - 2 ^ (strconv.intSize - 1).

(** The number that a numeral denotes: its digits, negated after a minus
    sign. *)
Definition numeral_value (s : string) : Z :=
  match s with
  | EmptyString => 0
  | String b rest =>
      if byte_val b =? 45 then - digits_value rest 0
      else if byte_val b =? 43 then digits_value rest 0
      else digits_value s 0
  end.

Section Formatting.

(** [fmt.Sprintf], which the package only calls: the type of its arguments
    and the function itself are taken as given. *)
Variable any : Type.
Variable Sprintf : string -> list any -> string.

(** [func Newf(code ExitCode, format string, args ...any) *ExitError] *)
Definition Newf (code : ExitCode) (format : string) (args : list any) : ExitError :=
  NewExitError code (Sprintf format args) None.

End Formatting.

(** The targets that [cli.go] hands to [errors.Is]: values of [errors.New],
    the deadline error and errnos, on which [same] is the comparison of Go. *)
Definition plain_target (t : error) : bool :=
  match t with
  | errorString _ _ | deadlineExceededError | Errno _ => true
  | _ => false
  end.

(** * The tests of the package, run on the embedding *)

Example TestExitCode_String :
  map ExitCode_String
      [ExitCodeSuccess; ExitCodeErrorInternal; ExitCodeInvalidArgument;
       ExitCodeNotFound; ExitCodeConfig; ExitCodeAuthFailed; ExitCodeValidation;
       ExitCodeInterrupted; 999]
  = ["Success"; "Internal error"; "Invalid argument"; "Not found";
     "Configuration error"; "Authentication failed"; "Validation error";
     "Interrupted by user"; "Unknown exit code: 999"].
Proof. reflexivity. Qed.

Example TestExitCode_Category :
  map ExitCode_Category
      [ExitCodeSuccess; ExitCodeError; ExitCodeUsageError; ExitCodeDataError;
       ExitCodeConfig; ExitCodeAuthFailed; ExitCodeValidation;
       ExitCodeInterrupted; ExitCodeTerminated; 999]
  = [CategorySuccess; CategoryGeneral; CategoryGeneral; CategoryUserError;
     CategoryUserError; CategoryCLIExtended; CategoryCLIExtended;
     CategorySystemSignal; CategorySystemSignal; CategorySystemSignal].
Proof. reflexivity. Qed.

Example TestExitCode_IsRetriable :
  forallb ExitCode_IsRetriable
          [ExitCodeTempFail; ExitCodeUnavailable; ExitCodeIOError; ExitCodeRateLimit]
  = true /\
  existsb ExitCode_IsRetriable
          [ExitCodeSuccess; ExitCodeError; ExitCodeUsageError; ExitCodeDataError;
           ExitCodeConfig; ExitCodeAuthFailed; ExitCodeValidation; ExitCodeNotFound;
           ExitCodeInterrupted]
  = false.
Proof. split; reflexivity. Qed.

Example TestExitCode_IsUserError :
  forallb ExitCode_IsUserError
          [ExitCodeUsageError; ExitCodeCmdUsage; ExitCodeDataError; ExitCodeNoInput;
           ExitCodeConfig; ExitCodeValidation]
  = true /\
  existsb ExitCode_IsUserError
          [ExitCodeSuccess; ExitCodeError; ExitCodeSoftware; ExitCodeOSError;
           ExitCodeIOError; ExitCodeAuthFailed; ExitCodeInterrupted;
           ExitCodeUnavailable; ExitCodeTempFail]
  = false.
Proof. split; reflexivity. Qed.

Example TestExitError :
  ExitError_Error [] (NewExitError ExitCodeConfig "custom message" None)
  = "custom message" /\
  Code (NewExitError ExitCodeConfig "custom message" None) = ExitCodeConfig /\
  ExitError_Error [] (NewExitError ExitCodeIOError ""
                        (Some (errorString (Local 0) "root cause")))
  = "root cause" /\
  ExitError_Unwrap (NewExitError ExitCodeIOError ""
                      (Some (errorString (Local 0) "root cause")))
  = Some (errorString (Local 0) "root cause") /\
  ExitError_Error [] (NewExitError ExitCodeNotFound "" None) = "Not found".
Proof. repeat split. Qed.

Example TestResolveExitCode :
  map ResolveExitCode
      [None; Some ErrInternal; Some ErrInvalid; Some ErrUsage; Some ErrDataFormat;
       Some ErrNotFound; Some ErrNoPermission; Some ErrConfig; Some ErrAuth;
       Some ErrForbidden; Some ErrValidation; Some ErrIO; Some ErrUnavailable;
       Some ErrTempFail; Some (errorString (Local 0) "unknown")]
  = [ExitCodeSuccess; ExitCodeErrorInternal; ExitCodeInvalidArgument;
     ExitCodeUsageError; ExitCodeDataError; ExitCodeNotFound;
     ExitCodeNoPermission; ExitCodeConfig; ExitCodeAuthFailed;
     ExitCodeForbidden; ExitCodeValidation; ExitCodeIOError;
     ExitCodeUnavailable; ExitCodeTempFail; ExitCodeErrorInternal].
Proof. reflexivity. Qed.

(** [errors.New("wrapped: " + exitErr.Error())] copies the text and wraps
    nothing. *)
Example TestResolveExitCode_ExitError :
  ResolveExitCode
    (Some (ptrExitError (NewExitError ExitCodeValidation "validation failed" None)))
  = ExitCodeValidation /\
  ResolveExitCode
    (Some (errorString (Local 0)
             ("wrapped: " ++
              ExitError_Error []
                (NewExitError ExitCodeValidation "validation failed" None))))
  = ExitCodeErrorInternal.
Proof. split; reflexivity. Qed.

Example TestHelperFunctions :
  as_ExitError (ptrExitError (UsageError "invalid command"))
  = Some (UsageError "invalid command") /\
  Code (UsageError "invalid command") = ExitCodeUsageError /\
  ExitError_Error [] (UsageError "invalid command") = "invalid command" /\
  Code (ValidationError "invalid data") = ExitCodeValidation /\
  ExitError_Error [] (NotFoundError "config file") = "config file not found" /\
  ExitError_Error [] (PermissionError "write file") = "permission denied: write file" /\
  Code (AuthError "invalid token") = ExitCodeAuthFailed /\
  Code (TempFailError "network timeout") = ExitCodeTempFail /\
  ExitCode_IsRetriable (Code (TempFailError "network timeout")) = true.
Proof. repeat split. Qed.

(** [dummyNetError{timeout}] reports [Timeout() = timeout] and
    [Temporary() = !timeout]. *)
Example TestResolveExitCode_Mappings :
  ResolveExitCode (Some context.Canceled) = ExitCodeInterrupted /\
  ResolveExitCode (Some context.DeadlineExceeded) = ExitCodeTempFail /\
  ResolveExitCode (Some (netError "dummy" true false None)) = ExitCodeTempFail /\
  ResolveExitCode (Some (netError "dummy" false true None)) = ExitCodeTempFail.
Proof. repeat split. Qed.

Example TestHTTPMappings :
  map FromHTTPStatus [200; 401; 403; 404; 422; 429; 503]
  = [ExitCodeSuccess; ExitCodeAuthFailed; ExitCodeForbidden; ExitCodeNotFound;
     ExitCodeValidation; ExitCodeRateLimit; ExitCodeUnavailable] /\
  existsb (fun code => FromHTTPStatus (ToHTTPStatus code) =? ExitCodeErrorInternal)
          [ExitCodeSuccess; ExitCodeAuthFailed; ExitCodeForbidden; ExitCodeNotFound;
           ExitCodeValidation; ExitCodeRateLimit; ExitCodeQuotaExceeded;
           ExitCodeUnavailable; ExitCodeTempFail; ExitCodeSoftware]
  = false /\
  ToHTTPStatus ExitCodeQuotaExceeded = 429.
Proof. repeat split. Qed.

Example TestExitError_JSONMarshaling :
  ExitError_MarshalJSON []
    (NewExitError ExitCodeValidation "invalid input"
       (Some (errorString (Local 0) "root cause")))
  = [ ("code", JNumber ExitCodeValidation);
      ("name", JString (ExitCode_String ExitCodeValidation));
      ("category", JString (ExitCode_Category ExitCodeValidation));
      ("message", JString "invalid input");
      ("cause", JString "root cause") ].
Proof. reflexivity. Qed.

Example TestExitCode_UnmarshalText :
  ExitCode_UnmarshalText 0 (String " " (String " " (String "009" "  ")))
  = (ExitCodeSuccess, None) /\
  ExitCode_UnmarshalText 0 (String " " ("85" ++ String " " (String "010" "")))
  = (ExitCodeValidation, None) /\
  snd (ExitCode_UnmarshalText ExitCodeValidation "abc") <> None.
Proof. repeat split. discriminate. Qed.

Example TestWithCode :
  WithCode [] (Some (errorString (Local 0) "root cause")) ExitCodeConfig
  = Some (mkExitError ExitCodeConfig "root cause"
            (Some (errorString (Local 0) "root cause"))) /\
  errors_Is (Some (ptrExitError
                     (mkExitError ExitCodeConfig "root cause"
                        (Some (errorString (Local 0) "root cause")))))
            (Some (errorString (Local 0) "root cause"))
  = true /\
  WithCode [] None ExitCodeConfig = None.
Proof. repeat split. Qed.

Example TestIntegrationExample :
  map (fun err => (ResolveExitCode err, ExitCode_IsRetriable (ResolveExitCode err)))
      [ None;
        Some (ptrExitError (NotFoundError "input.txt"));
        Some (ptrExitError (UsageError "missing required argument"));
        Some (ptrExitError (TempFailError "connection timeout"));
        Some (ptrExitError (PermissionError "access config directory")) ]
  = [ (ExitCodeSuccess, false); (ExitCodeNotFound, false);
      (ExitCodeUsageError, false); (ExitCodeTempFail, true);
      (ExitCodeNoPermission, false) ].
Proof. reflexivity. Qed.

(** * Properties *)

(** ** Helpers *)

Ltac split_tests :=
  repeat (match goal with
          | |- context [Z.eqb ?a ?b] => destruct (Z.eqb_spec a b)
          | |- context [Z.leb ?a ?b] => destruct (Z.leb_spec a b)
          | |- context [Z.ltb ?a ?b] => destruct (Z.ltb_spec a b)
          end; simpl).

Lemma switch_on_default {A : Type} (c : Z) (cases : list (Z * A)) (d : A) :
  ~ In c (map fst cases) -> switch_on c cases d = d.
Proof.
  induction cases as [|[label body] rest IH]; simpl; intros H.
  - reflexivity.
  - destruct (Z.eqb_spec c label) as [->|_].
    + exfalso. apply H. now left.
    + apply IH. intros Hin. apply H. now right.
Qed.

(** ** Classification *)

(** C3.  The category of a code follows its range: 0 is success, 1 to 63
    general, 64 to 79 user_error, 80 to 99 cli_extended, and every code from
    128 up is system_signal, 999 (which no constant names) among them. *)
Theorem category_by_range (c : ExitCode) :
  (c = 0 -> ExitCode_Category c = CategorySuccess) /\
  (1 <= c <= 63 -> ExitCode_Category c = CategoryGeneral) /\
  (64 <= c <= 79 -> ExitCode_Category c = CategoryUserError) /\
  (80 <= c <= 99 -> ExitCode_Category c = CategoryCLIExtended) /\
  (128 <= c -> ExitCode_Category c = CategorySystemSignal) /\
  (~ In 999 (map fst descriptions) /\
   ExitCode_Category 999 = CategorySystemSignal).
Proof.
  unfold ExitCode_Category.
  split; [|split; [|split; [|split; [|split; [|split]]]]].
  1-5: intros H; split_tests; try reflexivity; lia.
  - simpl. intros H. repeat (destruct H as [H|H]; [discriminate H|]). exact H.
  - reflexivity.
Qed.

Lemma category_by_range_witness :
  ExitCode_Category 0 = CategorySuccess /\
  ExitCode_Category 63 = CategoryGeneral /\
  ExitCode_Category 64 = CategoryUserError /\
  ExitCode_Category 99 = CategoryCLIExtended /\
  ExitCode_Category 128 = CategorySystemSignal.
Proof.
  split; [|split; [|split; [|split]]].
  - apply (proj1 (category_by_range 0)). reflexivity.
  - apply (proj1 (proj2 (category_by_range 63))). lia.
  - apply (proj1 (proj2 (proj2 (category_by_range 64)))). lia.
  - apply (proj1 (proj2 (proj2 (proj2 (category_by_range 99))))). lia.
  - apply (proj1 (proj2 (proj2 (proj2 (proj2 (category_by_range 128)))))). lia.
Defined.

(** C4, as stated, fails: 100 is not negative and its category is unknown. *)
Lemma unknown_not_only_negative :
  ~ (forall c : ExitCode, ExitCode_Category c = CategoryUnknown -> c < 0).
Proof.
  intros H. specialize (H 100 eq_refl). lia.
Qed.

(** C4, amended.  The category of a code is unknown exactly when the code is
    negative or lies in the gap 100 to 127 between the cli_extended range and
    the system_signal range. *)
Theorem category_unknown_iff (c : ExitCode) :
  ExitCode_Category c = CategoryUnknown <-> c < 0 \/ 100 <= c <= 127.
Proof.
  unfold ExitCode_Category. split.
  - split_tests; intros Hu; try discriminate Hu; lia.
  - intros H. split_tests; try reflexivity; lia.
Qed.

Lemma category_unknown_iff_witness :
  ExitCode_Category 100 = CategoryUnknown /\ ExitCode_Category (-1) = CategoryUnknown.
Proof.
  split.
  - apply (proj2 (category_unknown_iff 100)). right. lia.
  - apply (proj2 (category_unknown_iff (-1))). left. lia.
Defined.

(** C5.  A code is retriable exactly when it is one of 69 (Unavailable),
    74 (IOError), 75 (TempFail) and 86 (RateLimit); Success is not. *)
Theorem retriable_iff (c : ExitCode) :
  (ExitCode_IsRetriable c = true <->
   c = ExitCodeUnavailable \/ c = ExitCodeIOError \/
   c = ExitCodeTempFail \/ c = ExitCodeRateLimit) /\
  (ExitCodeUnavailable = 69 /\ ExitCodeIOError = 74 /\
   ExitCodeTempFail = 75 /\ ExitCodeRateLimit = 86) /\
  ExitCode_IsRetriable ExitCodeSuccess = false.
Proof.
  unfold ExitCode_IsRetriable. split; [split|split; [repeat split|reflexivity]].
  - split_tests; intros Hr; try discriminate Hr; auto.
  - unfold ExitCodeUnavailable, ExitCodeIOError, ExitCodeTempFail, ExitCodeRateLimit.
    intros H. split_tests; try reflexivity; lia.
Qed.

Lemma retriable_iff_witness :
  ExitCode_IsRetriable 74 = true.
Proof.
  apply (proj1 (retriable_iff 74)). right. left. reflexivity.
Defined.

(** ** HTTP mapping *)

Lemma ToHTTPStatus_values (c : ExitCode) :
  In (ToHTTPStatus c) [200; 400; 401; 403; 404; 409; 429; 503; 500].
Proof.
  unfold ToHTTPStatus, http_of_code. simpl. split_tests; simpl; tauto.
Qed.

Lemma FromHTTPStatus_of_ToHTTPStatus (c : ExitCode) :
  FromHTTPStatus (ToHTTPStatus c) <> ExitCodeErrorInternal.
Proof.
  pose proof (ToHTTPStatus_values c) as H. simpl in H.
  repeat (destruct H as [<-|H]; [vm_compute; discriminate|]).
  contradiction.
Qed.

(** C7.  For a code that [ToHTTPStatus] lists, mapping to a status and back
    never gives ErrorInternal; the round trip need not be the identity, and
    is not: TempFail comes back as Unavailable. *)
Theorem http_round_trip_not_internal :
  (forall code : ExitCode,
      designated code = true ->
      FromHTTPStatus (ToHTTPStatus code) <> ExitCodeErrorInternal) /\
  (exists code : ExitCode,
      designated code = true /\
      FromHTTPStatus (ToHTTPStatus code) <> code).
Proof.
  split.
  - intros code _. apply FromHTTPStatus_of_ToHTTPStatus.
  - exists ExitCodeTempFail. split; [reflexivity|discriminate].
Qed.

Lemma http_round_trip_not_internal_witness :
  designated ExitCodeTempFail = true /\
  FromHTTPStatus (ToHTTPStatus ExitCodeTempFail) <> ExitCodeErrorInternal.
Proof.
  split; [reflexivity|].
  apply (proj1 http_round_trip_not_internal ExitCodeTempFail). reflexivity.
Defined.

(** ** Chains *)

(** Induction along [Unwrap]: a property that passes from what an error
    wraps to the error holds of every error. *)
Lemma error_chain_ind (P : error -> Prop) :
  (forall e, (forall e', Unwrap e = Some e' -> P e') -> P e) ->
  forall e, P e.
Proof.
  intros step. fix IH 1. intros e. apply step. intros e' Hu.
  destruct e as [id s|msg e0| |n|op path e0|op old new e0|sc e0|msg t1 t2 w|x];
    simpl in Hu; try discriminate Hu.
  - injection Hu as <-. apply IH.
  - injection Hu as <-. apply IH.
  - injection Hu as <-. apply IH.
  - injection Hu as <-. apply IH.
  - destruct w as [e0|]; [|discriminate Hu]. injection Hu as <-. apply IH.
  - destruct x as [c m [e0|]]; simpl in Hu; [|discriminate Hu].
    injection Hu as <-. apply IH.
Qed.

Lemma chain_unfold (e : error) :
  chain e = e :: match Unwrap e with Some e' => chain e' | None => [] end.
Proof.
  destruct e as [| | | | | | |? ? ? [|]|[? ? [|]]]; reflexivity.
Qed.

Lemma errors_is_unfold (e t : error) :
  errors_is e t =
  same e t || method_Is e t ||
  match Unwrap e with Some e' => errors_is e' t | None => false end.
Proof.
  destruct e as [| | | | | | |? ? ? [|]|[? ? [|]]]; reflexivity.
Qed.

Lemma as_ExitError_unfold (e : error) :
  as_ExitError e =
  match e with
  | ptrExitError x => Some x
  | _ => match Unwrap e with Some e' => as_ExitError e' | None => None end
  end.
Proof.
  destruct e as [| | | | | | |? ? ? [|]|[? ? [|]]]; reflexivity.
Qed.

Lemma as_net_Error_unfold (e : error) :
  as_net_Error e =
  if implements_net_Error e then Some e
  else match Unwrap e with Some e' => as_net_Error e' | None => None end.
Proof.
  destruct e as [| | | | | | |? ? ? [|]|[? ? [|]]]; reflexivity.
Qed.

(** [errors.As] for [*ExitError] finds the first [ExitError] of the chain. *)
Lemma as_ExitError_chain (e : error) : as_ExitError e = chain_ExitError e.
Proof.
  unfold chain_ExitError. induction e as [e IH] using error_chain_ind.
  rewrite as_ExitError_unfold, chain_unfold. simpl.
  destruct e as [| | | | | | |? ? ? w|x]; simpl in *;
    try reflexivity; try (apply IH; reflexivity).
  destruct w as [e0|]; [apply IH|]; reflexivity.
Qed.

(** [errors.Is] is membership in the chain up to identity, for a target that
    no [Is] method answers to. *)
Lemma errors_is_chain (e t : error) :
  (forall n, Errno_Is n t = false) ->
  errors_is e t = chain_matches e t.
Proof.
  intros Hno. unfold chain_matches. induction e as [e IH] using error_chain_ind.
  rewrite errors_is_unfold, chain_unfold. simpl.
  assert (Hm : method_Is e t = false) by (destruct e; simpl; auto).
  rewrite Hm, orb_false_r. f_equal.
  destruct (Unwrap e) as [e'|]; [apply IH|]; reflexivity.
Qed.

(** [errors.As] for [net.Error] finds the first value of the chain that
    implements the interface. *)
Lemma as_net_Error_chain (e : error) : as_net_Error e = net_capability e.
Proof.
  unfold net_capability. induction e as [e IH] using error_chain_ind.
  rewrite as_net_Error_unfold, chain_unfold. simpl.
  destruct (implements_net_Error e); [reflexivity|].
  destruct (Unwrap e) as [e'|]; [apply IH|]; reflexivity.
Qed.

Lemma find_first_ExitError (pre rest : list error) (x : ExitError) :
  forallb (fun e => negb (is_ExitError e)) pre = true ->
  find is_ExitError (pre ++ ptrExitError x :: rest) = Some (ptrExitError x).
Proof.
  induction pre as [|a pre IH]; simpl; intros H.
  - reflexivity.
  - apply andb_prop in H as [Ha Hpre].
    destruct (is_ExitError a); [discriminate Ha|]. now apply IH.
Qed.

Ltac no_Is_method := intros n; reflexivity.

(** [os.IsNotExist] and [os.IsPermission] recognise the two OS conditions. *)
Lemma IsNotExist_condition (e : error) : os.IsNotExist e = not_exist_condition e.
Proof.
  unfold os.IsNotExist, os.underlyingErrorIs, not_exist_condition.
  destruct (os.underlyingError e); simpl; try reflexivity.
  apply orb_false_r.
Qed.

Lemma IsPermission_condition (e : error) : os.IsPermission e = permission_condition e.
Proof.
  unfold os.IsPermission, os.underlyingErrorIs, permission_condition.
  destruct (os.underlyingError e); simpl; try reflexivity.
  apply orb_false_r.
Qed.

(** ** The resolver *)

Lemma ResolveExitCode_spec (err : option error) :
  ResolveExitCode err = resolve_spec err.
Proof.
  destruct err as [e|]; [|reflexivity].
  unfold ResolveExitCode, resolve_spec.
  rewrite as_ExitError_chain. destruct (chain_ExitError e) as [x|]; [reflexivity|].
  rewrite !errors_is_chain by no_Is_method.
  rewrite as_net_Error_chain, IsNotExist_condition, IsPermission_condition.
  destruct (chain_matches e context.Canceled); [reflexivity|].
  destruct (chain_matches e context.DeadlineExceeded); [reflexivity|].
  destruct (not_exist_condition e); [reflexivity|].
  destruct (permission_condition e); [reflexivity|].
  destruct (net_capability e) as [ne|].
  - destruct (Timeout ne), (Temporary ne); reflexivity.
  - unfold sentinel_codes. cbn [find fst snd].
    repeat match goal with
           | |- context [chain_matches e ?t] => destruct (chain_matches e t)
           end; reflexivity.
Qed.


(** C2, as stated, fails: an [ExitError] with code 85 that another
    [ExitError], with code 78, wraps is in the chain, and 78 is returned. *)
Lemma inner_ExitError_does_not_win :
  ~ (forall (X : ExitCode) (x : ExitError) (err : error),
        Code x = X -> In (ptrExitError x) (chain err) ->
        ResolveExitCode (Some err) = X).
Proof.
  intros H.
  specialize (H ExitCodeValidation
                (NewExitError ExitCodeValidation "bad field" None)
                (ptrExitError
                   (NewExitError ExitCodeConfig "bad file"
                      (Some (ptrExitError
                               (NewExitError ExitCodeValidation "bad field" None)))))
                eq_refl).
  simpl in H. discriminate H. right. left. reflexivity.
Qed.

(** C2, amended.  An [ExitError] with code [X] resolves to [X], and so does
    every error whose chain reaches it before any other [ExitError], whatever
    the depth of the wrapping and whatever else the chain holds: the later
    rules (sentinel, OS condition, network capability) are not consulted.  Of
    several [ExitError]s on a chain the outermost gives the code. *)
Theorem first_ExitError_wins (X : ExitCode) (x : ExitError) (err : error)
    (pre rest : list error) :
  Code x = X ->
  chain err = (pre ++ ptrExitError x :: rest)%list ->
  forallb (fun e => negb (is_ExitError e)) pre = true ->
  ResolveExitCode (Some (ptrExitError x)) = X /\
  ResolveExitCode (Some err) = X.
Proof.
  intros HX Hchain Hpre. split.
  - simpl. exact HX.
  - unfold ResolveExitCode. rewrite as_ExitError_chain. unfold chain_ExitError.
    rewrite Hchain, (find_first_ExitError _ _ _ Hpre). exact HX.
Qed.

Lemma first_ExitError_wins_witness :
  ResolveExitCode
    (Some (wrapError "run: load: canceled"
             (wrapError "load: canceled"
                (ptrExitError
                   (NewExitError ExitCodeConfig "" (Some context.Canceled))))))
  = ExitCodeConfig.
Proof.
  refine (proj2 (first_ExitError_wins ExitCodeConfig
            (NewExitError ExitCodeConfig "" (Some context.Canceled))
            _
            [wrapError "run: load: canceled"
               (wrapError "load: canceled"
                  (ptrExitError
                     (NewExitError ExitCodeConfig "" (Some context.Canceled))));
             wrapError "load: canceled"
               (ptrExitError
                  (NewExitError ExitCodeConfig "" (Some context.Canceled)))]
            [context.Canceled] _ _ _)); reflexivity.
Defined.

(** ** Rendering and the structured record *)

Section RenderingProperties.

Variable errno_messages : list string.

(** C9.  The string of an [ExitError] is its message when that is not empty;
    otherwise the text of its cause when it has one; otherwise the
    description of its code, which for a code that no constant names reads
    "Unknown exit code: " followed by the number. *)
Theorem ExitError_rendering (e : ExitError) :
  (Message e <> "" -> ExitError_Error errno_messages e = Message e) /\
  (forall cause, Message e = "" -> Cause e = Some cause ->
                 ExitError_Error errno_messages e = Error errno_messages cause) /\
  (Message e = "" -> Cause e = None ->
   ExitError_Error errno_messages e = ExitCode_String (Code e)) /\
  (~ In (Code e) (map fst descriptions) ->
   ExitCode_String (Code e) = "Unknown exit code: " ++ strconv.Itoa (Code e)) /\
  Error errno_messages (ptrExitError e) = ExitError_Error errno_messages e.
Proof.
  destruct e as [code message cause]. simpl.
  split; [|split; [|split; [|split]]].
  - intros H. destruct (String.eqb_spec message ""); [contradiction|reflexivity].
  - intros c -> ->. reflexivity.
  - intros -> ->. reflexivity.
  - intros H. unfold ExitCode_String. now apply switch_on_default.
  - reflexivity.
Qed.

(** C10.  Each of the seven helpers returns an [ExitError] whose cause is its
    predefined sentinel, not nil; so for every message [errors.Is] finds the
    sentinel in the chain of the result, and the structured record of the
    result has a cause member, holding the text of the sentinel. *)
Theorem helpers_bind_sentinel (message : string) :
  Forall (fun h =>
            let '(helper, code, sentinel) := h in
            In sentinel (map fst sentinel_codes) /\
            Cause (helper message) = Some sentinel /\
            Code (helper message) = code /\
            errors_Is (Some (ptrExitError (helper message))) (Some sentinel) = true /\
            In sentinel (chain (ptrExitError (helper message))) /\
            json_get "cause" (ExitError_MarshalJSON errno_messages (helper message))
            = Some (JString (Error errno_messages sentinel)) /\
            Error errno_messages sentinel <> "")
         helpers.
Proof.
  unfold helpers.
  repeat (apply Forall_cons;
          [ split; [simpl; tauto|];
            split; [reflexivity|];
            split; [reflexivity|];
            split; [reflexivity|];
            split; [simpl; tauto|];
            split; [reflexivity|discriminate] |]).
  apply Forall_nil.
Qed.


End RenderingProperties.


Lemma ExitError_rendering_witness :
  ExitError_Error [] (NewExitError ExitCodeConfig "custom message" None) = "custom message" /\
  ExitError_Error [] (NewExitError ExitCodeIOError "" (Some (errorString (Local 0) "root cause")))
  = "root cause" /\
  ExitError_Error [] (NewExitError ExitCodeNotFound "" None) = "Not found" /\
  ExitCode_String 999 = "Unknown exit code: 999".
Proof.
  split; [|split; [|split]].
  - apply (proj1 (ExitError_rendering []
                    (NewExitError ExitCodeConfig "custom message" None))).
    discriminate.
  - exact (proj1 (proj2 (ExitError_rendering []
                    (NewExitError ExitCodeIOError ""
                       (Some (errorString (Local 0) "root cause")))))
                  (errorString (Local 0) "root cause") eq_refl eq_refl).
  - apply (proj1 (proj2 (proj2 (ExitError_rendering []
                    (NewExitError ExitCodeNotFound "" None))))); reflexivity.
  - apply (proj1 (proj2 (proj2 (proj2 (ExitError_rendering []
                    (NewExitError 999 "" None)))))).
    simpl. intros H. repeat (destruct H as [H|H]; [discriminate H|]). exact H.
Defined.

(** ** Text form: decoding the white-space runes *)

Lemma list_ascii_of_string_app (s1 s2 : string) :
  list_ascii_of_string (s1 ++ s2)
  = (list_ascii_of_string s1 ++ list_ascii_of_string s2)%list.
Proof.
  induction s1 as [|b s1 IH]; simpl; [reflexivity|]. now rewrite IH.
Qed.

Lemma asciiSpace_below_RuneSelf (c : Z) :
  strings.asciiSpace c = true -> (utf8.RuneSelf <=? c) = false.
Proof.
  unfold strings.asciiSpace, utf8.RuneSelf. intros H.
  destruct (Z.leb_spec 128 c) as [Hc|]; [|reflexivity].
  exfalso. revert H. split_tests; try discriminate; lia.
Qed.

Lemma visible_spec (b : ascii) :
  visible b = true ->
  (utf8.RuneSelf <=? byte_val b) = false /\ strings.asciiSpace (byte_val b) = false.
Proof.
  unfold visible. intros H. apply andb_prop in H as [H1 H2].
  apply Z.ltb_lt in H1. split.
  - apply Z.leb_gt. exact H1.
  - now destruct (strings.asciiSpace (byte_val b)).
Qed.

Lemma byte_val_bounds (b : ascii) : 0 <= byte_val b < 256.
Proof.
  unfold byte_val. pose proof (N_ascii_bounded b) as H. lia.
Qed.

Lemma IsSpace_visible (b : ascii) :
  visible b = true -> unicode.IsSpace (byte_val b) = false.
Proof.
  intros H. pose proof (byte_val_bounds b) as R. revert H.
  unfold visible, unicode.IsSpace, strings.asciiSpace, utf8.RuneSelf.
  split_tests; intros Hv; try reflexivity; try discriminate Hv; lia.
Qed.

(** The white-space runes are the twenty-five of the list. *)
Lemma IsSpace_white_space (r : Z) : unicode.IsSpace r = true -> In r white_space.
Proof.
  unfold unicode.IsSpace, white_space.
  split_tests; intros Hs; try discriminate Hs; simpl; lia.
Qed.

Lemma first_sizes (s0 sz lo hi : Z) :
  utf8.first s0 = Some (sz, lo, hi) -> sz = 2 \/ sz = 3 \/ sz = 4.
Proof.
  unfold utf8.first.
  repeat match goal with
         | |- context [if ?t then _ else _] => destruct t
         end; intros H; inversion H; auto.
Qed.

Ltac length_tests :=
  repeat match goal with
         | |- context [Z.ltb (Z.of_nat ?n) ?k] =>
             destruct (Z.ltb_spec (Z.of_nat n) k); try lia
         end.

(** Bytes after a complete sequence do not change how it decodes. *)
Lemma DecodeRune_more1 (b : ascii) (tail : list ascii) :
  (byte_val b <? utf8.RuneSelf) = true ->
  utf8.DecodeRune (b :: tail) = (byte_val b, 1%nat).
Proof.
  intros H. unfold utf8.DecodeRune. now rewrite H.
Qed.

Lemma DecodeRune_more2 (b0 b1 : ascii) (tail : list ascii) (r : Z) :
  utf8.DecodeRune [b0; b1] = (r, 2%nat) ->
  utf8.DecodeRune (b0 :: b1 :: tail) = (r, 2%nat).
Proof.
  unfold utf8.DecodeRune.
  destruct (byte_val b0 <? utf8.RuneSelf); [discriminate|].
  destruct (utf8.first (byte_val b0)) as [[[sz lo] hi]|] eqn:F; [|discriminate].
  destruct (first_sizes _ _ _ _ F) as [-> | [-> | ->]];
    cbn [List.length]; length_tests; simpl; try discriminate;
    destruct ((byte_val b1 <? lo) || (hi <? byte_val b1)); auto; discriminate.
Qed.

Lemma DecodeRune_more3 (b0 b1 b2 : ascii) (tail : list ascii) (r : Z) :
  utf8.DecodeRune [b0; b1; b2] = (r, 3%nat) ->
  utf8.DecodeRune (b0 :: b1 :: b2 :: tail) = (r, 3%nat).
Proof.
  unfold utf8.DecodeRune.
  destruct (byte_val b0 <? utf8.RuneSelf); [discriminate|].
  destruct (utf8.first (byte_val b0)) as [[[sz lo] hi]|] eqn:F; [|discriminate].
  destruct (first_sizes _ _ _ _ F) as [-> | [-> | ->]];
    cbn [List.length]; length_tests; simpl; try discriminate;
    destruct ((byte_val b1 <? lo) || (hi <? byte_val b1)); auto; try discriminate;
    destruct (negb (utf8.continuation (byte_val b2))); auto; discriminate.
Qed.

Lemma skipn_length_app (pre l : list ascii) : skipn (List.length pre) (pre ++ l) = l.
Proof. induction pre as [|a pre IH]; simpl; auto. Qed.

Lemma firstn_length_app (l rest : list ascii) : firstn (List.length l) (l ++ rest) = l.
Proof. induction l as [|a l IH]; simpl; [reflexivity|]. now rewrite IH. Qed.

Lemma nth_length_app (pre l : list ascii) (k : nat) :
  nth (List.length pre + k) (pre ++ l) zero = nth k l zero.
Proof. induction pre as [|a pre IH]; simpl; auto. Qed.

(** The last rune of a text is found whatever precedes it. *)
Lemma DecodeLastRune_1 (pre : list ascii) (b : ascii) :
  (byte_val b <? utf8.RuneSelf) = true ->
  utf8.DecodeLastRune (pre ++ [b]) = (byte_val b, 1%nat).
Proof.
  intros H. unfold utf8.DecodeLastRune. rewrite length_app. cbn [List.length].
  destruct (Z.eqb_spec (Z.of_nat (List.length pre + 1)) 0); [lia|].
  replace (Z.to_nat (Z.of_nat (List.length pre + 1) - 1))
    with (List.length pre + 0)%nat by lia.
  rewrite nth_length_app. cbn [nth]. now rewrite H.
Qed.

Lemma DecodeLastRune_2 (pre : list ascii) (b0 b1 : ascii) (r : Z) :
  (byte_val b1 <? utf8.RuneSelf) = false ->
  utf8.RuneStart (byte_val b0) = true ->
  utf8.DecodeRune [b0; b1] = (r, 2%nat) ->
  utf8.DecodeLastRune (pre ++ [b0; b1]) = (r, 2%nat).
Proof.
  intros H1 H0 D. unfold utf8.DecodeLastRune. rewrite length_app. cbn [List.length].
  destruct (Z.eqb_spec (Z.of_nat (List.length pre + 2)) 0); [lia|].
  replace (Z.to_nat (Z.of_nat (List.length pre + 2) - 1)) with (List.length pre + 1)%nat by lia.
  rewrite nth_length_app. cbn [nth]. rewrite H1.
  cbn [utf8.find_start].
  destruct (Z.ltb_spec (Z.of_nat (List.length pre + 2) - 2) (Z.max 0 (Z.of_nat (List.length pre + 2) - utf8.UTFMax)));
    [unfold utf8.UTFMax in *; lia|].
  replace (Z.to_nat (Z.of_nat (List.length pre + 2) - 2)) with (List.length pre + 0)%nat by lia.
  rewrite nth_length_app. cbn [nth]. rewrite H0.
  replace (Z.to_nat (Z.max 0 (Z.of_nat (List.length pre + 2) - 2))) with (List.length pre) by lia.
  rewrite skipn_length_app, D.
  destruct (Z.eqb_spec (Z.max 0 (Z.of_nat (List.length pre + 2) - 2) + Z.of_nat 2) (Z.of_nat (List.length pre + 2)));
    [reflexivity|lia].
Qed.

Lemma DecodeLastRune_3 (pre : list ascii) (b0 b1 b2 : ascii) (r : Z) :
  (byte_val b2 <? utf8.RuneSelf) = false ->
  utf8.RuneStart (byte_val b1) = false ->
  utf8.RuneStart (byte_val b0) = true ->
  utf8.DecodeRune [b0; b1; b2] = (r, 3%nat) ->
  utf8.DecodeLastRune (pre ++ [b0; b1; b2]) = (r, 3%nat).
Proof.
  intros H2 H1 H0 D. unfold utf8.DecodeLastRune. rewrite length_app. cbn [List.length].
  destruct (Z.eqb_spec (Z.of_nat (List.length pre + 3)) 0); [lia|].
  replace (Z.to_nat (Z.of_nat (List.length pre + 3) - 1)) with (List.length pre + 2)%nat by lia.
  rewrite nth_length_app. cbn [nth]. rewrite H2.
  cbn [utf8.find_start].
  destruct (Z.ltb_spec (Z.of_nat (List.length pre + 3) - 2) (Z.max 0 (Z.of_nat (List.length pre + 3) - utf8.UTFMax)));
    [unfold utf8.UTFMax in *; lia|].
  replace (Z.to_nat (Z.of_nat (List.length pre + 3) - 2)) with (List.length pre + 1)%nat by lia.
  rewrite nth_length_app. cbn [nth]. rewrite H1.
  destruct (Z.ltb_spec (Z.of_nat (List.length pre + 3) - 2 - 1) (Z.max 0 (Z.of_nat (List.length pre + 3) - utf8.UTFMax)));
    [unfold utf8.UTFMax in *; lia|].
  replace (Z.to_nat (Z.of_nat (List.length pre + 3) - 2 - 1)) with (List.length pre + 0)%nat by lia.
  rewrite nth_length_app. cbn [nth]. rewrite H0.
  replace (Z.to_nat (Z.max 0 (Z.of_nat (List.length pre + 3) - 2 - 1))) with (List.length pre) by lia.
  rewrite skipn_length_app, D.
  destruct (Z.eqb_spec (Z.max 0 (Z.of_nat (List.length pre + 3) - 2 - 1) + Z.of_nat 3) (Z.of_nat (List.length pre + 3)));
    [reflexivity|lia].
Qed.

(** Each white-space rune decodes from its encoding, read from the front with
    anything after it and from the back with anything before it; and its
    encoding is either one ASCII white-space byte or bytes from [0x80] up. *)
Lemma white_space_decoding :
  Forall (fun r =>
            (forall tail,
                utf8.DecodeRune (utf8.EncodeRune r ++ tail)
                = (r, List.length (utf8.EncodeRune r))) /\
            (forall pre,
                utf8.DecodeLastRune (pre ++ utf8.EncodeRune r)
                = (r, List.length (utf8.EncodeRune r))) /\
            ((exists b, utf8.EncodeRune r = [b] /\
                        strings.asciiSpace (byte_val b) = true) \/
             (utf8.EncodeRune r <> [] /\
              Forall (fun b => (utf8.RuneSelf <=? byte_val b) = true)
                     (utf8.EncodeRune r))))
         white_space.
Proof.
  unfold white_space.
  repeat (apply Forall_cons;
          [ match goal with
            | |- context [utf8.EncodeRune ?r] =>
                let l := eval vm_compute in (utf8.EncodeRune r) in
                change (utf8.EncodeRune r) with l
            end;
            split; [|split];
            [ intros tail; cbn [app List.length];
              first [ apply DecodeRune_more1; reflexivity
                    | apply DecodeRune_more2; reflexivity
                    | apply DecodeRune_more3; reflexivity ]
            | intros pre; cbn [List.length];
              first [ apply DecodeLastRune_1; reflexivity
                    | apply DecodeLastRune_2; reflexivity
                    | apply DecodeLastRune_3; reflexivity ]
            | first [ left; eexists; split; reflexivity
                    | right; split; [discriminate|repeat constructor] ] ]
          | ]).
  apply Forall_nil.
Qed.

Lemma space_rune (r : Z) :
  unicode.IsSpace r = true ->
  (forall tail,
      utf8.DecodeRune (utf8.EncodeRune r ++ tail) = (r, List.length (utf8.EncodeRune r))) /\
  (forall pre,
      utf8.DecodeLastRune (pre ++ utf8.EncodeRune r) = (r, List.length (utf8.EncodeRune r))) /\
  ((exists b, utf8.EncodeRune r = [b] /\ strings.asciiSpace (byte_val b) = true) \/
   (utf8.EncodeRune r <> [] /\
    Forall (fun b => (utf8.RuneSelf <=? byte_val b) = true) (utf8.EncodeRune r))).
Proof.
  intros H. apply IsSpace_white_space in H.
  exact (proj1 (Forall_forall _ _) white_space_decoding r H).
Qed.

Lemma EncodeRune_space_not_empty (r : Z) :
  unicode.IsSpace r = true -> utf8.EncodeRune r <> [].
Proof.
  intros H. destruct (space_rune r H) as [_ [_ [[b [-> _]]|[Hne _]]]];
    [discriminate|exact Hne].
Qed.

Lemma encode_app (a b : list Z) : encode (a ++ b) = (encode a ++ encode b)%list.
Proof. apply flat_map_app. Qed.

Lemma encode_one (r : Z) : encode [r] = utf8.EncodeRune r.
Proof. unfold encode. simpl. apply app_nil_r. Qed.

Lemma encode_length (runes : list Z) :
  Forall (fun r => unicode.IsSpace r = true) runes ->
  (List.length runes <= List.length (encode runes))%nat.
Proof.
  induction 1 as [|r runes Hr _ IH]; [apply Nat.le_refl|].
  change (encode (r :: runes)) with (utf8.EncodeRune r ++ encode runes)%list.
  rewrite length_app. apply EncodeRune_space_not_empty in Hr.
  destruct (utf8.EncodeRune r); [contradiction|]. simpl. lia.
Qed.

(** ** Text form: trimming *)

Lemma trimLeft_skip (f : Z -> bool) (l tail : list ascii) :
  strings.trimLeft f (List.length l) (l ++ tail) = strings.trimLeft f 0 tail.
Proof.
  induction l as [|a l IH]; [reflexivity|]. exact IH.
Qed.

Lemma trimLeft_space (r : Z) (tail : list ascii) :
  unicode.IsSpace r = true ->
  strings.trimLeft unicode.IsSpace 0 (utf8.EncodeRune r ++ tail)
  = strings.trimLeft unicode.IsSpace 0 tail.
Proof.
  intros H. destruct (space_rune r H) as [D _].
  pose proof (EncodeRune_space_not_empty r H) as Hne. specialize (D tail).
  destruct (utf8.EncodeRune r) as [|b l]; [contradiction|].
  change ((b :: l) ++ tail)%list with (b :: (l ++ tail))%list in *.
  cbn [strings.trimLeft]. rewrite D, H. cbn [List.length].
  rewrite Nat.sub_1_r. cbn [Nat.pred]. apply trimLeft_skip.
Qed.

Lemma trimLeft_blank (runes : list Z) (tail : list ascii) :
  Forall (fun r => unicode.IsSpace r = true) runes ->
  strings.trimLeft unicode.IsSpace 0 (encode runes ++ tail)
  = strings.trimLeft unicode.IsSpace 0 tail.
Proof.
  induction 1 as [|r runes Hr _ IH]; [reflexivity|].
  change (encode (r :: runes)) with (utf8.EncodeRune r ++ encode runes)%list.
  now rewrite <- app_assoc, trimLeft_space.
Qed.

Lemma trimLeft_visible (b : ascii) (t : list ascii) :
  visible b = true -> strings.trimLeft unicode.IsSpace 0 (b :: t) = b :: t.
Proof.
  intros H. cbn [strings.trimLeft].
  rewrite DecodeRune_more1, (IsSpace_visible _ H); [reflexivity|].
  apply visible_spec in H as [H _]. apply Z.leb_gt in H. now apply Z.ltb_lt.
Qed.

Lemma lastIndexFunc_step (fuel : nat) (s : list ascii) (f : Z -> bool) (i : nat) :
  (0 < i)%nat ->
  strings.lastIndexFunc (S fuel) s f i
  = let '(r, size) := utf8.DecodeLastRune (firstn i s) in
    if f r then strings.lastIndexFunc fuel s f (i - size) else Some (i - size)%nat.
Proof.
  intros H. destruct i; [lia|reflexivity].
Qed.

(** The backward scan passes the white space after a visible byte and stops
    on that byte. *)
Lemma lastIndexFunc_blank (pre : list ascii) (b : ascii) (runes : list Z) :
  visible b = true ->
  Forall (fun r => unicode.IsSpace r = true) runes ->
  forall (rest : list ascii) (fuel : nat),
    (List.length runes < fuel)%nat ->
    strings.lastIndexFunc fuel ((pre ++ [b]) ++ encode runes ++ rest) unicode.IsSpace
                          (List.length ((pre ++ [b]) ++ encode runes))
    = Some (List.length pre).
Proof.
  intros Hb. induction runes as [|r runes IH] using rev_ind; intros HF rest fuel Hfuel.
  - destruct fuel as [|fuel]; [simpl in Hfuel; lia|].
    change (encode []) with (@nil ascii). rewrite app_nil_r. cbn [app].
    rewrite lastIndexFunc_step by (rewrite length_app; simpl; lia).
    rewrite firstn_length_app, DecodeLastRune_1.
    + rewrite (IsSpace_visible _ Hb), length_app. f_equal. simpl. lia.
    + apply visible_spec in Hb as [Hb _]. apply Z.leb_gt in Hb. now apply Z.ltb_lt.
  - apply Forall_app in HF as [HF Hr]. inversion Hr as [|? ? Hsp _]; subst.
    destruct fuel as [|fuel]; [lia|].
    rewrite length_app in Hfuel. simpl in Hfuel.
    rewrite encode_app, encode_one.
    destruct (space_rune r Hsp) as [_ [DL _]].
    rewrite lastIndexFunc_step by (rewrite !length_app; simpl; lia).
    replace (((pre ++ [b]) ++ (encode runes ++ utf8.EncodeRune r) ++ rest)%list)
      with ((((pre ++ [b]) ++ encode runes ++ utf8.EncodeRune r) ++ rest)%list)
      by (now rewrite <- !app_assoc).
    rewrite firstn_length_app.
    rewrite (app_assoc (pre ++ [b])), DL, Hsp.
    rewrite length_app, Nat.add_sub.
    replace ((((pre ++ [b]) ++ encode runes) ++ utf8.EncodeRune r) ++ rest)%list
      with ((pre ++ [b]) ++ encode runes ++ (utf8.EncodeRune r ++ rest))%list
      by (now rewrite <- !app_assoc).
    apply IH; [exact HF|lia].
Qed.

Lemma TrimRightFunc_blank (pre : list ascii) (b : ascii) (runes : list Z) :
  visible b = true ->
  Forall (fun r => unicode.IsSpace r = true) runes ->
  strings.TrimRightFunc ((pre ++ [b]) ++ encode runes) unicode.IsSpace = (pre ++ [b])%list.
Proof.
  intros Hb HF. unfold strings.TrimRightFunc.
  pose proof (lastIndexFunc_blank pre b runes Hb HF []
                (List.length ((pre ++ [b]) ++ encode runes))) as L.
  rewrite app_nil_r in L. rewrite L.
  - replace (nth (List.length pre) ((pre ++ [b]) ++ encode runes) zero) with b.
    + apply visible_spec in Hb as [-> _].
      rewrite <- (firstn_length_app (pre ++ [b]) (encode runes)) at 2.
      f_equal. rewrite length_app. reflexivity.
    + rewrite <- app_assoc. cbn [app]. now rewrite nth_middle.
  - pose proof (encode_length runes HF). rewrite !length_app. simpl. lia.
Qed.

Lemma trimSpace_stop_visible (b : ascii) (r : list ascii) :
  visible b = true -> strings.trimSpace_stop (b :: r) = rev (b :: r).
Proof.
  intros H. apply visible_spec in H as [H1 H2]. simpl. now rewrite H1, H2.
Qed.

(** The second loop removes the white space after a visible byte: the bytes
    of ASCII itself, and from the first other byte on by [TrimRightFunc]. *)
Lemma trimSpace_stop_blank (pre : list ascii) (b : ascii) (runes : list Z) :
  visible b = true ->
  Forall (fun r => unicode.IsSpace r = true) runes ->
  strings.trimSpace_stop (rev ((pre ++ [b]) ++ encode runes)) = (pre ++ [b])%list.
Proof.
  intros Hb. induction runes as [|r runes IH] using rev_ind; intros HF.
  - change (encode []) with (@nil ascii). rewrite app_nil_r, rev_unit.
    rewrite (trimSpace_stop_visible _ _ Hb). cbn [rev]. now rewrite rev_involutive.
  - apply Forall_app in HF as [HF Hr]. inversion Hr as [|? ? Hsp _]; subst.
    rewrite encode_app, encode_one, app_assoc, rev_app_distr.
    destruct (space_rune r Hsp) as [_ [_ [[c [E Hc]]|[Hne Hhigh]]]].
    + rewrite E. cbn [rev app strings.trimSpace_stop].
      rewrite (asciiSpace_below_RuneSelf _ Hc), Hc. now apply IH.
    + destruct (rev (utf8.EncodeRune r)) as [|h l] eqn:R.
      { apply (f_equal (@rev ascii)) in R. rewrite rev_involutive in R.
        contradiction. }
      assert (Hh : (utf8.RuneSelf <=? byte_val h) = true).
      { rewrite Forall_forall in Hhigh. apply Hhigh, in_rev. rewrite R. now left. }
      cbn [app strings.trimSpace_stop]. rewrite Hh.
      change (h :: (l ++ rev ((pre ++ [b]) ++ encode runes)))%list
        with ((h :: l) ++ rev ((pre ++ [b]) ++ encode runes))%list.
      rewrite <- R, <- rev_app_distr, rev_involutive, <- app_assoc.
      rewrite <- (encode_one r), <- encode_app.
      apply TrimRightFunc_blank; [exact Hb|].
      apply Forall_app. split; [exact HF|exact Hr].
Qed.

(** A white-space-only text is removed whole by the first loop. *)
Lemma trimSpace_start_blank (runes : list Z) :
  Forall (fun r => unicode.IsSpace r = true) runes ->
  strings.trimSpace_start (encode runes) = [].
Proof.
  intros HF. induction HF as [|r runes Hr HF IH]; [reflexivity|].
  change (encode (r :: runes)) with (utf8.EncodeRune r ++ encode runes)%list.
  destruct (space_rune r Hr) as [_ [_ [[c [E Hc]]|[Hne Hhigh]]]].
  - rewrite E. cbn [app strings.trimSpace_start].
    now rewrite (asciiSpace_below_RuneSelf _ Hc), Hc.
  - destruct (utf8.EncodeRune r) as [|h l] eqn:R; [contradiction|].
    inversion Hhigh as [|? ? Hh _]; subst.
    cbn [app strings.trimSpace_start]. rewrite Hh.
    change (h :: (l ++ encode runes))%list with ((h :: l) ++ encode runes)%list.
    rewrite <- R. change (utf8.EncodeRune r ++ encode runes)%list with (encode (r :: runes)).
    unfold strings.TrimFunc, strings.TrimLeftFunc.
    rewrite <- (app_nil_r (encode (r :: runes))).
    rewrite trimLeft_blank by (now constructor). reflexivity.
Qed.

Lemma trimSpace_start_visible (b : ascii) (t : list ascii) :
  visible b = true ->
  strings.trimSpace_start (b :: t) = strings.trimSpace_stop (rev (b :: t)).
Proof.
  intros H. apply visible_spec in H as [H1 H2]. simpl. now rewrite H1, H2.
Qed.

Lemma last_cons (b d : ascii) (t : list ascii) : last (b :: t) d = last t b.
Proof.
  revert b d. induction t as [|a t IH]; intros b d; [reflexivity|].
  change (last (b :: a :: t) d) with (last (a :: t) d). now rewrite !IH.
Qed.

Lemma cons_as_snoc (b : ascii) (t : list ascii) :
  (b :: t) = (removelast (b :: t) ++ [last t b])%list.
Proof.
  rewrite <- (last_cons b b t). apply app_removelast_last. discriminate.
Qed.

(** White space on both sides of a text with visible ends is removed, and
    the text is what remains. *)
Lemma trimSpace_start_around (runes1 runes2 : list Z) (b : ascii) (t : list ascii) :
  Forall (fun r => unicode.IsSpace r = true) runes1 ->
  Forall (fun r => unicode.IsSpace r = true) runes2 ->
  visible b = true -> visible (last t b) = true ->
  strings.trimSpace_start (encode runes1 ++ (b :: t) ++ encode runes2) = b :: t.
Proof.
  intros H1 H2 Hb Hl.
  assert (Stop : strings.trimSpace_stop (rev ((b :: t) ++ encode runes2)) = b :: t).
  { rewrite (cons_as_snoc b t) at 1 2. now apply trimSpace_stop_blank. }
  assert (Right : strings.TrimRightFunc ((b :: t) ++ encode runes2) unicode.IsSpace
                  = b :: t).
  { rewrite (cons_as_snoc b t) at 1 2. now apply TrimRightFunc_blank. }
  induction H1 as [|r runes1 Hr H1 IH].
  - cbn [encode flat_map app]. change ((b :: t) ++ encode runes2)%list
      with (b :: (t ++ encode runes2))%list.
    rewrite (trimSpace_start_visible _ _ Hb). exact Stop.
  - change (encode (r :: runes1)) with (utf8.EncodeRune r ++ encode runes1)%list.
    destruct (space_rune r Hr) as [_ [_ [[c [E Hc]]|[Hne Hhigh]]]].
    + rewrite E. cbn [app strings.trimSpace_start].
      now rewrite (asciiSpace_below_RuneSelf _ Hc), Hc.
    + destruct (utf8.EncodeRune r) as [|h l] eqn:R; [contradiction|].
      inversion Hhigh as [|? ? Hh _]; subst.
      cbn [app strings.trimSpace_start]. rewrite Hh.
      match goal with
      | |- strings.TrimFunc ?L _ = _ =>
          change L with (((h :: l) ++ encode runes1) ++ (b :: t) ++ encode runes2)%list
      end.
      rewrite <- R.
      change (utf8.EncodeRune r ++ encode runes1)%list with (encode (r :: runes1)).
      unfold strings.TrimFunc, strings.TrimLeftFunc.
      rewrite trimLeft_blank by (now constructor).
      change ((b :: t) ++ encode runes2)%list with (b :: (t ++ encode runes2))%list.
      rewrite (trimLeft_visible _ _ Hb). exact Right.
Qed.

(** A white-space-only text trims to the empty string. *)
Lemma TrimSpace_blank (s : string) : blank s -> strings.TrimSpace s = "".
Proof.
  intros [runes [HF E]]. unfold strings.TrimSpace.
  now rewrite E, trimSpace_start_blank.
Qed.

(** White space around a trimmed text is removed, and nothing else. *)
Lemma TrimSpace_around (ws1 s ws2 : string) :
  blank ws1 -> blank ws2 -> trimmed s ->
  strings.TrimSpace (ws1 ++ s ++ ws2) = s.
Proof.
  intros [runes1 [H1 E1]] [runes2 [H2 E2]] Hs.
  unfold trimmed, strings.TrimSpace in *.
  rewrite !list_ascii_of_string_app, E1, E2.
  rewrite <- (string_of_list_ascii_of_string s) at 2.
  destruct (list_ascii_of_string s) as [|b t].
  - cbn [app]. rewrite <- encode_app, trimSpace_start_blank; [reflexivity|].
    apply Forall_app. now split.
  - destruct Hs as [Hb Hl]. now rewrite trimSpace_start_around.
Qed.

Lemma blank_empty : blank "".
Proof. exists []. split; [constructor|reflexivity]. Qed.

Lemma TrimSpace_trimmed (s : string) : trimmed s -> strings.TrimSpace s = s.
Proof.
  intros H.
  pose proof (TrimSpace_around "" s "" blank_empty blank_empty H) as E.
  simpl in E. rewrite <- E at 2. f_equal.
  clear. induction s as [|b s IH]; simpl; [reflexivity|]. now rewrite <- IH.
Qed.

(** ** Text form: digits *)

Lemma byte_val_digit (d : Z) : 0 <= d <= 9 -> byte_val (strconv.digit d) = 48 + d.
Proof.
  intros H. unfold byte_val, strconv.digit. rewrite N_ascii_embedding by lia. lia.
Qed.

Lemma is_digit_digit (d : Z) : 0 <= d <= 9 -> is_digit (strconv.digit d) = true.
Proof.
  intros H. unfold is_digit. rewrite byte_val_digit by exact H.
  apply andb_true_intro. split; apply Z.leb_le; lia.
Qed.

Lemma is_digit_true (b : ascii) :
  is_digit b = true -> 48 <= byte_val b <= 57.
Proof.
  unfold is_digit. intros H. apply andb_prop in H as [H1 H2].
  apply Z.leb_le in H1, H2. lia.
Qed.

Lemma is_digit_false (b : ascii) :
  is_digit b = false -> byte_val b < 48 \/ 57 < byte_val b.
Proof.
  unfold is_digit. intros H. apply andb_false_iff in H as [H|H];
    apply Z.leb_gt in H; lia.
Qed.

Lemma wrap_byte_digit (b : ascii) :
  is_digit b = true ->
  strconv.wrap_byte (byte_val b - 48) = byte_val b - 48.
Proof.
  intros H. apply is_digit_true in H. unfold strconv.wrap_byte.
  apply Z.mod_small. lia.
Qed.

Lemma wrap_byte_not_digit (b : ascii) :
  is_digit b = false -> 9 < strconv.wrap_byte (byte_val b - 48).
Proof.
  intros H. apply is_digit_false in H. pose proof (byte_val_bounds b) as R.
  unfold strconv.wrap_byte. destruct H as [H|H].
  - replace (byte_val b - 48) with (byte_val b + 208 + (-1) * 256) by lia.
    rewrite Z.mod_add by lia. rewrite Z.mod_small; lia.
  - rewrite Z.mod_small; lia.
Qed.

Lemma wrap_int_small (z : Z) : 0 <= z < 2 ^ 63 -> strconv.wrap_int z = z.
Proof.
  intros H. unfold strconv.wrap_int. rewrite Z.mod_small; lia.
Qed.

Lemma digits_value_ge (s : string) (n : Z) :
  all_digits s = true -> 0 <= n -> n <= digits_value s n.
Proof.
  revert n. induction s as [|b s IH]; intros n Hd Hn;
    cbn [digits_value all_digits] in *; [lia|].
  apply andb_prop in Hd as [Hb Hs]. apply is_digit_true in Hb.
  specialize (IH (n * 10 + (byte_val b - 48)) Hs). lia.
Qed.

(** On digits that denote a number below [2^63] the loop of the fast path
    computes that number. *)
Lemma atoi_loop_digits (s : string) (n : Z) :
  all_digits s = true -> 0 <= n -> digits_value s n < 2 ^ 63 ->
  strconv.atoi_loop s n = inl (digits_value s n).
Proof.
  revert n. induction s as [|b s IH]; intros n Hd Hn Hv;
    cbn [strconv.atoi_loop digits_value all_digits] in *; [reflexivity|].
  apply andb_prop in Hd as [Hb Hs].
  rewrite (wrap_byte_digit _ Hb). apply is_digit_true in Hb.
  destruct (Z.ltb_spec 9 (byte_val b - 48)); [lia|].
  pose proof (digits_value_ge s (n * 10 + (byte_val b - 48)) Hs) as G.
  rewrite wrap_int_small by lia. apply IH; [exact Hs|lia|exact Hv].
Qed.

(** So does the loop of [ParseUint], whose overflow tests stay silent. *)
Lemma parseUint_loop_digits (s : string) (n : Z) :
  all_digits s = true -> 0 <= n -> digits_value s n < 2 ^ 63 ->
  strconv.parseUint_loop s n = inl (digits_value s n).
Proof.
  revert n. induction s as [|b s IH]; intros n Hd Hn Hv;
    cbn [strconv.parseUint_loop digits_value all_digits] in *; [reflexivity|].
  apply andb_prop in Hd as [Hb Hs]. apply is_digit_true in Hb.
  pose proof (digits_value_ge s (n * 10 + (byte_val b - 48)) Hs) as G.
  destruct (Z.leb_spec 48 (byte_val b)); [|lia].
  destruct (Z.leb_spec (byte_val b) 57); [|lia]. cbn [andb].
  destruct (Z.leb_spec 10 (byte_val b - 48)); [lia|].
  change ((2 ^ 64 - 1) / 10 + 1) with 1844674407370955162.
  destruct (Z.leb_spec 1844674407370955162 n); [lia|].
  unfold strconv.wrap_uint64.
  rewrite (Z.mod_small (n * 10)) by lia.
  rewrite (Z.mod_small (n * 10 + (byte_val b - 48))) by lia.
  destruct (Z.ltb_spec (n * 10 + (byte_val b - 48)) (n * 10)); [lia|].
  destruct (Z.ltb_spec (2 ^ 64 - 1) (n * 10 + (byte_val b - 48))); [lia|].
  cbn [orb]. apply IH; [exact Hs|lia|exact Hv].
Qed.

(** A byte that is no strconv.digit stops both loops with an error. *)
Lemma atoi_loop_not_digits (s : string) (n : Z) :
  all_digits s = false -> strconv.atoi_loop s n = inr strconv.ErrSyntax.
Proof.
  revert n. induction s as [|b s IH]; intros n Hd;
    cbn [strconv.atoi_loop all_digits] in *; [discriminate Hd|].
  destruct (is_digit b) eqn:Hb; cbn [andb] in Hd.
  - rewrite (wrap_byte_digit _ Hb). apply is_digit_true in Hb.
    destruct (Z.ltb_spec 9 (byte_val b - 48)); [reflexivity|]. now apply IH.
  - apply wrap_byte_not_digit in Hb.
    destruct (Z.ltb_spec 9 (strconv.wrap_byte (byte_val b - 48))); [reflexivity|lia].
Qed.

Lemma lower_letter_value (c : Z) :
  97 <= strconv.lower c <= 122 ->
  10 <= strconv.wrap_byte (strconv.lower c - 97 + 10).
Proof.
  intros H. unfold strconv.wrap_byte. rewrite Z.mod_small; lia.
Qed.

Lemma parseUint_loop_not_digits (s : string) (n : Z) :
  all_digits s = false -> exists e, strconv.parseUint_loop s n = inr e.
Proof.
  revert n. induction s as [|b s IH]; intros n Hd;
    cbn [strconv.parseUint_loop all_digits] in *; [discriminate Hd|].
  destruct (is_digit b) eqn:Hb; cbn [andb] in Hd.
  - apply is_digit_true in Hb.
    destruct (Z.leb_spec 48 (byte_val b)); [|lia].
    destruct (Z.leb_spec (byte_val b) 57); [|lia]. cbn [andb].
    destruct (10 <=? byte_val b - 48); [now eexists|].
    destruct ((2 ^ 64 - 1) / 10 + 1 <=? n); [now eexists|].
    match goal with |- context [if ?t then _ else _] => destruct t end;
      [now eexists|]. now apply IH.
  - apply is_digit_false in Hb.
    replace ((48 <=? byte_val b) && (byte_val b <=? 57)) with false
      by (symmetry; apply andb_false_iff;
          destruct Hb; [left; apply Z.leb_gt|right; apply Z.leb_gt]; lia).
    destruct ((97 <=? strconv.lower (byte_val b))
              && (strconv.lower (byte_val b) <=? 122)) eqn:Hl; [|now eexists].
    apply andb_prop in Hl as [L1 L2]. apply Z.leb_le in L1, L2.
    pose proof (lower_letter_value (byte_val b) (conj L1 L2)) as G.
    destruct (Z.leb_spec 10 (strconv.wrap_byte (strconv.lower (byte_val b) - 97 + 10)));
      [now eexists|lia].
Qed.

Lemma digit_is_not_sign (b : ascii) :
  is_digit b = true -> (byte_val b =? 45) = false /\ (byte_val b =? 43) = false.
Proof.
  intros H. apply is_digit_true in H. split; apply Z.eqb_neq; lia.
Qed.

(** [Atoi] on a non-empty string of digits below [2^63]: both of its paths
    give the number the digits denote. *)
Lemma Atoi_digits (s : string) :
  s <> "" -> all_digits s = true -> digits_value s 0 < 2 ^ 63 ->
  strconv.Atoi s = inl (digits_value s 0).
Proof.
  intros Hne Hd Hv. destruct s as [|b rest]; [contradiction|].
  pose proof Hd as Hb. simpl in Hb. apply andb_prop in Hb as [Hb _].
  destruct (digit_is_not_sign _ Hb) as [Hm Hp].
  pose proof (digits_value_ge _ 0 Hd (Z.le_refl 0)) as G.
  unfold strconv.Atoi.
  destruct ((0 <? Z.of_nat (String.length (String b rest)))
            && (Z.of_nat (String.length (String b rest)) <? 19)).
  - rewrite Hm, Hp. cbn [orb andb].
    rewrite atoi_loop_digits by (auto; lia). reflexivity.
  - unfold strconv.ParseInt. rewrite Hm, Hp. cbn [orb andb negb].
    unfold strconv.ParseUint. rewrite parseUint_loop_digits by (auto; lia).
    change (2 ^ (strconv.intSize - 1)) with (2 ^ 63).
    destruct (Z.leb_spec (2 ^ 63) (digits_value (String b rest) 0)); [lia|].
    rewrite wrap_int_small by lia. reflexivity.
Qed.

(** [Atoi] rejects every non-empty text that is no numeral. *)
Lemma Atoi_not_numeral (s : string) :
  s <> "" -> numeral s = false -> exists e, strconv.Atoi s = inr e.
Proof.
  intros Hne Hn. destruct s as [|b rest]; [contradiction|].
  unfold numeral in Hn. unfold strconv.Atoi.
  destruct ((0 <? Z.of_nat (String.length (String b rest)))
            && (Z.of_nat (String.length (String b rest)) <? 19)).
  - rewrite (orb_comm (byte_val b =? 45)).
    destruct ((byte_val b =? 43) || (byte_val b =? 45)); cbn [andb].
    + destruct rest as [|b1 rest]; [now eexists|].
      cbn [String.eqb negb andb] in Hn.
      replace (Z.of_nat (String.length (String b1 rest)) <? 1) with false
        by (symmetry; apply Z.ltb_ge; simpl String.length; lia).
      rewrite (atoi_loop_not_digits _ 0) by (simpl in Hn |- *; exact Hn).
      now eexists.
    + rewrite (atoi_loop_not_digits _ 0 Hn). now eexists.
  - unfold strconv.ParseInt.
    destruct ((byte_val b =? 43) || (byte_val b =? 45)).
    + unfold strconv.ParseUint. destruct rest as [|b1 rest]; [now eexists|].
      cbn [String.eqb negb andb] in Hn.
      destruct (parseUint_loop_not_digits (String b1 rest) 0) as [e He];
        [simpl in Hn |- *; exact Hn|].
      rewrite He. now eexists.
    + unfold strconv.ParseUint.
      destruct (parseUint_loop_not_digits (String b rest) 0 Hn) as [e He].
      rewrite He. now eexists.
Qed.

(** ** Text form: rendering and the round trip *)

(** Quotient and remainder by ten, as linear facts. *)
Ltac div10 u :=
  pose proof (Z.div_mod u 10 ltac:(lia));
  pose proof (Z.mod_pos_bound u 10 ltac:(lia)).

Lemma small_formatBits (i : Z) :
  0 <= i < 100 -> strconv.small i = strconv.formatBits 20 i "".
Proof.
  intros H. unfold strconv.small. cbn [strconv.formatBits]. div10 i.
  destruct (Z.ltb_spec i 10), (Z.leb_spec 10 i); try lia; [reflexivity|].
  destruct (Z.leb_spec 10 (i / 10)); [lia|].
  do 3 f_equal. lia.
Qed.

(** The text of a code that is not negative is the strconv.digit loop's output. *)
Lemma Itoa_nonneg (c : Z) : 0 <= c -> strconv.Itoa c = strconv.formatBits 20 c "".
Proof.
  intros H. unfold strconv.Itoa.
  destruct (Z.leb_spec 0 c); [|lia]. destruct (Z.ltb_spec c 100); cbn [andb].
  - apply small_formatBits. lia.
  - destruct (Z.ltb_spec c 0); [lia|reflexivity].
Qed.

Lemma formatBits_digits (fuel : nat) (u : Z) (acc : string) :
  0 <= u -> all_digits acc = true -> all_digits (strconv.formatBits fuel u acc) = true.
Proof.
  revert u acc. induction fuel as [|fuel IH]; intros u acc Hu Hacc;
    cbn [strconv.formatBits]; [exact Hacc|]. div10 u.
  destruct (Z.leb_spec 10 u).
  - apply IH; [lia|]. cbn [all_digits]. rewrite is_digit_digit by lia. exact Hacc.
  - cbn [all_digits]. rewrite is_digit_digit by lia. exact Hacc.
Qed.

Lemma formatBits_value (fuel : nat) (u : Z) (acc : string) :
  0 <= u < 10 ^ Z.of_nat fuel ->
  digits_value (strconv.formatBits fuel u acc) 0 = digits_value acc u.
Proof.
  revert u acc. induction fuel as [|fuel IH]; intros u acc Hu;
    cbn [strconv.formatBits].
  - change (10 ^ Z.of_nat 0) with 1 in Hu. now replace u with 0 by lia.
  - rewrite Nat2Z.inj_succ, Z.pow_succ_r in Hu by lia. div10 u.
    destruct (Z.leb_spec 10 u).
    + rewrite IH by lia. cbn [digits_value].
      rewrite byte_val_digit by lia. f_equal. lia.
    + cbn [digits_value]. rewrite byte_val_digit by lia. f_equal. lia.
Qed.

Lemma formatBits_not_empty (fuel : nat) (u : Z) (acc : string) :
  strconv.formatBits (S fuel) u acc <> "".
Proof.
  revert u acc. induction fuel as [|fuel IH]; intros u acc.
  - cbn [strconv.formatBits]. destruct (10 <=? u); discriminate.
  - change (strconv.formatBits (S (S fuel)) u acc)
      with (if 10 <=? u
            then strconv.formatBits (S fuel) (u / 10) (String (strconv.digit (u - u / 10 * 10)) acc)
            else String (strconv.digit u) acc).
    destruct (10 <=? u); [apply IH|discriminate].
Qed.

Lemma is_digit_visible (b : ascii) : is_digit b = true -> visible b = true.
Proof.
  intros H. apply is_digit_true in H.
  unfold visible, strings.asciiSpace, utf8.RuneSelf.
  split_tests; try reflexivity; lia.
Qed.

Lemma all_digits_Forall (s : string) :
  all_digits s = true ->
  Forall (fun b => is_digit b = true) (list_ascii_of_string s).
Proof.
  induction s as [|b s IH]; cbn [all_digits list_ascii_of_string]; intros H.
  - constructor.
  - apply andb_prop in H as [Hb Hs]. constructor; auto.
Qed.

Lemma In_last (b : ascii) (t : list ascii) : In (last t b) (b :: t).
Proof.
  revert b. induction t as [|a t IH]; intros b; [now left|].
  rewrite last_cons. right. apply IH.
Qed.

(** A string of digits has no white space to trim at either end. *)
Lemma all_digits_trimmed (s : string) : all_digits s = true -> trimmed s.
Proof.
  intros H. apply all_digits_Forall in H. unfold trimmed.
  destruct (list_ascii_of_string s) as [|b t]; [exact I|].
  rewrite Forall_forall in H. split; apply is_digit_visible, H.
  - now left.
  - apply In_last.
Qed.

(** ** Text form: the claims *)

Lemma MarshalText_digits (c : ExitCode) :
  0 <= c <= maxInt ->
  ExitCode_MarshalText c <> "" /\
  all_digits (ExitCode_MarshalText c) = true /\
  digits_value (ExitCode_MarshalText c) 0 = c.
Proof.
  intros H. unfold ExitCode_MarshalText, maxInt in *.
  change (2 ^ (strconv.intSize - 1) - 1) with (2 ^ 63 - 1) in H.
  rewrite Itoa_nonneg by lia. split; [|split].
  - apply formatBits_not_empty.
  - apply formatBits_digits; [lia|reflexivity].
  - rewrite formatBits_value; [reflexivity|].
    change (10 ^ Z.of_nat 20) with 100000000000000000000. lia.
Qed.

Lemma UnmarshalText_trimmed (c0 : ExitCode) (s : string) :
  ExitCode_UnmarshalText c0 s
  = if String.eqb (strings.TrimSpace s) "" then (ExitCodeSuccess, None)
    else match strconv.Atoi (strings.TrimSpace s) with
         | inr _ => (c0, Some (InvalidExitCodeText (strings.TrimSpace s)))
         | inl n => (n, None)
         end.
Proof. reflexivity. Qed.

(** C6.  The text form of a code round-trips.  For a code [c] from 0 up to
    the largest [int], parsing the decimal text of [c] gives [c] and no
    error; a text of white space only (the empty text too) gives Success and
    no error; a text that, once trimmed, is not empty and is no decimal
    numeral is refused with the format error, which quotes the trimmed text,
    and leaves the receiver as it was; and white space around a text changes
    nothing of the result. *)
Theorem text_round_trip :
  (forall c c0 : ExitCode,
      0 <= c <= maxInt ->
      ExitCode_UnmarshalText c0 (ExitCode_MarshalText c) = (c, None)) /\
  (forall (text : string) (c0 : ExitCode),
      blank text ->
      ExitCode_UnmarshalText c0 text = (ExitCodeSuccess, None)) /\
  (forall (text : string) (c0 : ExitCode),
      strings.TrimSpace text <> "" ->
      numeral (strings.TrimSpace text) = false ->
      ExitCode_UnmarshalText c0 text
      = (c0, Some (InvalidExitCodeText (strings.TrimSpace text)))) /\
  (forall (ws1 s ws2 : string) (c0 : ExitCode),
      blank ws1 -> blank ws2 -> trimmed s ->
      ExitCode_UnmarshalText c0 (ws1 ++ s ++ ws2) = ExitCode_UnmarshalText c0 s).
Proof.
  split; [|split; [|split]].
  - intros c c0 Hc. destruct (MarshalText_digits c Hc) as [Hne [Hd Hv]].
    rewrite UnmarshalText_trimmed, (TrimSpace_trimmed _ (all_digits_trimmed _ Hd)).
    destruct (String.eqb_spec (ExitCode_MarshalText c) ""); [contradiction|].
    rewrite Atoi_digits, Hv; auto.
    rewrite Hv. unfold maxInt in Hc.
    change (2 ^ (strconv.intSize - 1) - 1) with (2 ^ 63 - 1) in Hc. lia.
  - intros text c0 Hb. rewrite UnmarshalText_trimmed, (TrimSpace_blank _ Hb).
    reflexivity.
  - intros text c0 Hne Hn. rewrite UnmarshalText_trimmed.
    destruct (String.eqb_spec (strings.TrimSpace text) ""); [contradiction|].
    destruct (Atoi_not_numeral _ Hne Hn) as [e ->]. reflexivity.
  - intros ws1 s ws2 c0 H1 H2 Hs.
    rewrite !UnmarshalText_trimmed, (TrimSpace_around _ _ _ H1 H2 Hs),
      (TrimSpace_trimmed _ Hs). reflexivity.
Qed.

Lemma text_round_trip_witness :
  ExitCode_UnmarshalText 7 (ExitCode_MarshalText 85) = (85, None) /\
  ExitCode_UnmarshalText 7 (String "009" "   ") = (ExitCodeSuccess, None) /\
  ExitCode_UnmarshalText 7 "abc" = (7, Some (InvalidExitCodeText (strings.TrimSpace "abc"))) /\
  ExitCode_UnmarshalText 7
    (String "194" (String "160" " ") ++ "85" ++ String " " (String "010" ""))
  = ExitCode_UnmarshalText 7 "85".
Proof.
  destruct text_round_trip as [round [white [refused around]]].
  split; [|split; [|split]].
  - apply round. unfold maxInt. simpl. lia.
  - apply white. exists [9; 32; 32; 32]. split; [repeat constructor|reflexivity].
  - apply refused; [discriminate|reflexivity].
  - apply around.
    + exists [0xA0; 32]. split; [repeat constructor|reflexivity].
    + exists [32; 10]. split; [repeat constructor|reflexivity].
    + split; reflexivity.
Defined.

(** * Further properties of the package *)

(** ** Classification *)

(** X1.  A code counts as a user error exactly when it is one of 2, 64, 65,
    66, 67, 68, 77, 78, 83 and 85. *)
Theorem user_error_iff (c : ExitCode) :
  ExitCode_IsUserError c = true <->
  In c [2; 64; 65; 66; 67; 68; 77; 78; 83; 85].
Proof.
  unfold ExitCode_IsUserError,
    ExitCodeInvalidArgument, ExitCodeCmdUsage, ExitCodeDataError, ExitCodeNoInput,
    ExitCodeNoUser, ExitCodeNoHost, ExitCodeNoPermission, ExitCodeConfig,
    ExitCodeNotFound, ExitCodeValidation.
  split.
  - split_tests; intros Hu; try discriminate Hu; simpl; lia.
  - simpl. intros Hin. split_tests; try reflexivity; lia.
Qed.

(** X2.  No code is both retriable and a user error, and Success is
    neither. *)
Theorem retriable_and_user_error_exclude (c : ExitCode) :
  ExitCode_IsRetriable c && ExitCode_IsUserError c = false /\
  ExitCode_IsRetriable ExitCodeSuccess = false /\
  ExitCode_IsUserError ExitCodeSuccess = false.
Proof.
  split; [|split; reflexivity].
  unfold ExitCode_IsRetriable, ExitCode_IsUserError,
    ExitCodeTempFail, ExitCodeUnavailable, ExitCodeIOError, ExitCodeRateLimit,
    ExitCodeInvalidArgument, ExitCodeCmdUsage, ExitCodeDataError, ExitCodeNoInput,
    ExitCodeNoUser, ExitCodeNoHost, ExitCodeNoPermission, ExitCodeConfig,
    ExitCodeNotFound, ExitCodeValidation.
  split_tests; try reflexivity; lia.
Qed.

(** ** Descriptions *)

Lemma switch_on_In {A : Type} (c : Z) (cases : list (Z * A)) (d : A) :
  In c (map fst cases) -> In (c, switch_on c cases d) cases.
Proof.
  induction cases as [|[label body] rest IH]; simpl; intros H; [contradiction|].
  destruct (Z.eqb_spec c label) as [->|Hne].
  - now left.
  - right. apply IH. destruct H as [H|H]; [congruence|exact H].
Qed.

Lemma NoDup_snd_inj {A B : Type} (l : list (A * B)) (a b : A) (s : B) :
  NoDup (map snd l) -> In (a, s) l -> In (b, s) l -> a = b.
Proof.
  induction l as [|[k v] l IH]; simpl; intros N Ha Hb; [contradiction|].
  inversion N as [|? ? Hnot N']; subst.
  destruct Ha as [Ha|Ha], Hb as [Hb|Hb].
  - congruence.
  - inversion Ha; subst. exfalso. apply Hnot.
    change s with (snd (b, s)). now apply in_map.
  - inversion Hb; subst. exfalso. apply Hnot.
    change s with (snd (a, s)). now apply in_map.
  - now apply IH.
Qed.

Lemma prefix_append (p x : string) : String.prefix p (p ++ x) = true.
Proof.
  induction p as [|b p IH]; simpl; [now destruct x|].
  destruct (ascii_dec b b) as [_|N]; [exact IH|now contradiction N].
Qed.

Lemma append_cancel (p a b : string) : p ++ a = p ++ b -> a = b.
Proof.
  induction p as [|c p IH]; simpl; intros H; [exact H|].
  injection H as H. now apply IH.
Qed.

(** The descriptions of the named codes are pairwise different, none is
    empty and none starts like the description of an unnamed code. *)
Lemma descriptions_distinct : NoDup (map snd descriptions).
Proof.
  unfold descriptions. cbn [map snd].
  repeat (apply NoDup_cons;
          [cbn [In]; intros H;
           repeat (destruct H as [H|H]; [discriminate H|]); exact H|]).
  apply NoDup_nil.
Qed.

Lemma descriptions_shape :
  forallb (fun kv => negb (String.eqb (snd kv) "")
                     && negb (String.prefix "Unknown exit code: " (snd kv)))
          descriptions = true.
Proof. reflexivity. Qed.

Lemma named_description (c : ExitCode) :
  In c (map fst descriptions) ->
  In (c, ExitCode_String c) descriptions /\
  ExitCode_String c <> "" /\
  String.prefix "Unknown exit code: " (ExitCode_String c) = false.
Proof.
  intros H. pose proof (switch_on_In c descriptions
                          ("Unknown exit code: " ++ strconv.Itoa c) H) as Hin.
  fold (ExitCode_String c) in Hin. split; [exact Hin|].
  pose proof descriptions_shape as S. rewrite forallb_forall in S.
  specialize (S _ Hin). cbn [snd] in S. apply andb_prop in S as [S1 S2].
  split.
  - intros E. rewrite E in S1. discriminate S1.
  - now destruct (String.prefix "Unknown exit code: " (ExitCode_String c)).
Qed.

Lemma unnamed_description (c : ExitCode) :
  ~ In c (map fst descriptions) ->
  ExitCode_String c = "Unknown exit code: " ++ strconv.Itoa c.
Proof.
  intros H. unfold ExitCode_String. now apply switch_on_default.
Qed.

(** [Itoa] on a number that is not negative: digits that denote it. *)
Lemma Itoa_digits (c : Z) :
  0 <= c < 10 ^ 20 ->
  strconv.Itoa c <> "" /\ all_digits (strconv.Itoa c) = true /\
  digits_value (strconv.Itoa c) 0 = c.
Proof.
  intros H. rewrite Itoa_nonneg by lia. split; [|split].
  - apply formatBits_not_empty.
  - apply formatBits_digits; [lia|reflexivity].
  - rewrite formatBits_value; [reflexivity|].
    change (Z.of_nat 20) with 20. lia.
Qed.

Lemma Itoa_negative (c : Z) :
  c < 0 -> strconv.Itoa c = String "-" (strconv.formatBits 20 (- c) "").
Proof.
  intros H. unfold strconv.Itoa.
  destruct (Z.leb_spec 0 c); [lia|]. cbn [andb].
  destruct (Z.ltb_spec c 0); [reflexivity|lia].
Qed.

Lemma formatBits_positive (c : Z) :
  0 <= c < 10 ^ 20 ->
  strconv.formatBits 20 c "" <> "" /\
  all_digits (strconv.formatBits 20 c "") = true /\
  digits_value (strconv.formatBits 20 c "") 0 = c.
Proof.
  intros H. rewrite <- Itoa_nonneg by lia. now apply Itoa_digits.
Qed.

Lemma digits_not_minus (s : string) (t : string) :
  s <> "" -> all_digits s = true -> s <> String "-" t.
Proof.
  intros Hne Hd E. subst s. cbn [all_digits] in Hd.
  apply andb_prop in Hd as [Hd _]. discriminate Hd.
Qed.

(** [Itoa] tells numbers apart. *)
Lemma Itoa_injective (c d : Z) :
  - 10 ^ 20 < c < 10 ^ 20 -> - 10 ^ 20 < d < 10 ^ 20 ->
  strconv.Itoa c = strconv.Itoa d -> c = d.
Proof.
  intros Hc Hd E.
  destruct (Z_lt_le_dec c 0) as [Nc|Pc], (Z_lt_le_dec d 0) as [Nd|Pd].
  - rewrite (Itoa_negative c Nc), (Itoa_negative d Nd) in E.
    pose proof (f_equal (fun s => match s with
                                  | String _ t => t
                                  | EmptyString => EmptyString
                                  end) E) as E'.
    cbv beta iota in E'.
    destruct (formatBits_positive (- c)) as [_ [_ Vc]]; [lia|].
    destruct (formatBits_positive (- d)) as [_ [_ Vd]]; [lia|].
    rewrite E' in Vc. lia.
  - rewrite (Itoa_negative c Nc) in E.
    destruct (Itoa_digits d) as [Hne [Hdig _]]; [lia|].
    exfalso. exact (digits_not_minus _ _ Hne Hdig (eq_sym E)).
  - rewrite (Itoa_negative d Nd) in E.
    destruct (Itoa_digits c) as [Hne [Hdig _]]; [lia|].
    exfalso. exact (digits_not_minus _ _ Hne Hdig E).
  - destruct (Itoa_digits c) as [_ [_ Vc]]; [lia|].
    destruct (Itoa_digits d) as [_ [_ Vd]]; [lia|].
    rewrite E in Vc. lia.
Qed.

(** X3.  The description tells the code: two codes of type [int] with the
    same description are the same code, named or not. *)
Theorem description_determines_code (c d : ExitCode) :
  minInt <= c <= maxInt -> minInt <= d <= maxInt ->
  ExitCode_String c = ExitCode_String d -> c = d.
Proof.
  unfold minInt, maxInt. change (strconv.intSize - 1) with 63. intros Hc Hd E.
  destruct (in_dec Z.eq_dec c (map fst descriptions)) as [Nc|Uc],
           (in_dec Z.eq_dec d (map fst descriptions)) as [Nd|Ud].
  - destruct (named_description c Nc) as [Ic _].
    destruct (named_description d Nd) as [Id _]. rewrite E in Ic.
    exact (NoDup_snd_inj _ _ _ _ descriptions_distinct Ic Id).
  - destruct (named_description c Nc) as [_ [_ P]].
    rewrite E, (unnamed_description d Ud), prefix_append in P. discriminate P.
  - destruct (named_description d Nd) as [_ [_ P]].
    rewrite <- E, (unnamed_description c Uc), prefix_append in P. discriminate P.
  - rewrite (unnamed_description c Uc), (unnamed_description d Ud) in E.
    apply append_cancel in E. apply Itoa_injective in E; [exact E|lia|lia].
Qed.

Lemma description_determines_code_witness : 83 = ExitCodeNotFound.
Proof.
  apply description_determines_code;
    [ unfold minInt, maxInt; change (strconv.intSize - 1) with 63; lia
    | unfold minInt, maxInt, ExitCodeNotFound;
      change (strconv.intSize - 1) with 63; lia
    | reflexivity ].
Defined.

(** X4.  Every code has a description that is not empty, and the text of an
    [ExitError] is empty in one case only: its message is empty and it has a
    cause whose own text is empty (the description of the code is not used
    then). *)
Theorem description_never_empty (errno_messages : list string) (e : ExitError) :
  (forall c : ExitCode, ExitCode_String c <> "") /\
  (ExitError_Error errno_messages e = "" <->
   Message e = "" /\
   exists cause, Cause e = Some cause /\ Error errno_messages cause = "").
Proof.
  assert (S : forall c : ExitCode, ExitCode_String c <> "").
  { intros c. destruct (in_dec Z.eq_dec c (map fst descriptions)) as [N|U].
    - now destruct (named_description c N) as [_ [H _]].
    - rewrite (unnamed_description c U). discriminate. }
  split; [exact S|].
  destruct e as [code message cause]. cbn [ExitError_Error Message Cause].
  destruct (String.eqb_spec message "") as [->|Hm]; cbn [negb].
  - destruct cause as [c|].
    + split.
      * intros E. split; [reflexivity|]. now exists c.
      * intros [_ [c' [Hc E]]]. now injection Hc as <-.
    + split.
      * intros E. now apply S in E.
      * intros [_ [c' [Hc _]]]. discriminate Hc.
  - split.
    + intros E. contradiction.
    + intros [E _]. contradiction.
Qed.

(** ** HTTP mapping *)

Ltac unfold_codes :=
  unfold ExitCodeSuccess, ExitCodeErrorInternal, ExitCodeError,
    ExitCodeInvalidArgument, ExitCodeUsageError, ExitCodeCmdUsage,
    ExitCodeDataError, ExitCodeNoInput, ExitCodeNoUser, ExitCodeNoHost,
    ExitCodeUnavailable, ExitCodeSoftware, ExitCodeOSError, ExitCodeOSFile,
    ExitCodeCantCreate, ExitCodeIOError, ExitCodeTempFail, ExitCodeProtocol,
    ExitCodeNoPermission, ExitCodeConfig, ExitCodeAuthRequired,
    ExitCodeAuthFailed, ExitCodeForbidden, ExitCodeNotFound, ExitCodeConflict,
    ExitCodeValidation, ExitCodeRateLimit, ExitCodeQuotaExceeded,
    ExitCodeInterrupted, ExitCodeTerminated in *.

(** X5.  [FromHTTPStatus] by class of status: the code is Success exactly for
    the statuses 200 to 299; it is ErrorInternal exactly for the statuses
    below 200 and for 300 to 399; from 500 up it is Software for 500 and
    Unavailable for every other status; and for 400 to 499 it is one of
    DataError, AuthFailed, Forbidden, NotFound, Conflict, Validation and
    RateLimit. *)
Theorem FromHTTPStatus_by_class (status : Z) :
  (FromHTTPStatus status = ExitCodeSuccess <-> 200 <= status < 300) /\
  (FromHTTPStatus status = ExitCodeErrorInternal <->
   status < 200 \/ 300 <= status < 400) /\
  (500 <= status ->
   FromHTTPStatus status
   = if status =? 500 then ExitCodeSoftware else ExitCodeUnavailable) /\
  (400 <= status < 500 ->
   In (FromHTTPStatus status)
      [ExitCodeDataError; ExitCodeAuthFailed; ExitCodeForbidden; ExitCodeNotFound;
       ExitCodeConflict; ExitCodeValidation; ExitCodeRateLimit]).
Proof.
  unfold FromHTTPStatus. unfold_codes.
  split; [|split; [|split]].
  - split; [split_tests; intros Hs; try discriminate Hs; lia
           |intros Hs; split_tests; try reflexivity; lia].
  - split; [split_tests; intros Hs; try discriminate Hs; lia
           |intros Hs; split_tests; try reflexivity; lia].
  - intros Hs. split_tests; try reflexivity; lia.
  - intros Hs. split_tests; simpl; try tauto; lia.
Qed.

Lemma FromHTTPStatus_by_class_witness :
  FromHTTPStatus 599 = ExitCodeUnavailable /\
  In (FromHTTPStatus 418)
     [ExitCodeDataError; ExitCodeAuthFailed; ExitCodeForbidden; ExitCodeNotFound;
      ExitCodeConflict; ExitCodeValidation; ExitCodeRateLimit].
Proof.
  split.
  - apply (proj1 (proj2 (proj2 (FromHTTPStatus_by_class 599)))). lia.
  - apply (proj2 (proj2 (proj2 (FromHTTPStatus_by_class 418)))). lia.
Defined.

(** X6.  [ToHTTPStatus] gives 200 for Success and for no other code; every
    other code gets a status from 400 to 599; so going to a status and back
    gives Success for Success only. *)
Theorem ToHTTPStatus_success_only (code : ExitCode) :
  (ToHTTPStatus code = 200 <-> code = ExitCodeSuccess) /\
  (code <> ExitCodeSuccess -> 400 <= ToHTTPStatus code < 600) /\
  (FromHTTPStatus (ToHTTPStatus code) = ExitCodeSuccess <-> code = ExitCodeSuccess).
Proof.
  assert (A : ToHTTPStatus code = 200 <-> code = ExitCodeSuccess).
  { unfold ToHTTPStatus, http_of_code. cbn [switch_on]. unfold_codes.
    split; [split_tests; intros Hs; try discriminate Hs; lia
           |intros ->; reflexivity]. }
  split; [exact A|]. split.
  - intros Hne. pose proof (ToHTTPStatus_values code) as V. simpl in V.
    assert (ToHTTPStatus code <> 200) by (intros E; now apply A in E). lia.
  - split.
    + intros E. apply A.
      pose proof (ToHTTPStatus_values code) as V. simpl in V.
      repeat (destruct V as [V|V];
              [rewrite <- V in E |- *; first [reflexivity|discriminate E]|]).
      contradiction.
    + intros ->. reflexivity.
Qed.

Lemma ToHTTPStatus_success_only_witness :
  400 <= ToHTTPStatus 9999 < 600.
Proof.
  apply (proj1 (proj2 (ToHTTPStatus_success_only 9999))). discriminate.
Defined.

(** X7.  The status of a code is stable under a round trip: mapping a code
    to its status, the status back to a code and that code to its status
    gives the first status again, for every code. *)
Theorem ToHTTPStatus_round_trip_stable (code : ExitCode) :
  ToHTTPStatus (FromHTTPStatus (ToHTTPStatus code)) = ToHTTPStatus code.
Proof.
  pose proof (ToHTTPStatus_values code) as V. simpl in V.
  repeat (destruct V as [V|V]; [rewrite <- V; reflexivity|]).
  contradiction.
Qed.

(** X8.  From a status to a code and back keeps the class of the status
    where the classes are told apart: 200 to 299 gives 200, 400 to 499 gives a
    status from 400 to 499, 500 and up gives 500 or 503; a status below 200
    or from 300 to 399 gives 500. *)
Theorem FromHTTPStatus_keeps_class (status : Z) :
  (200 <= status < 300 -> ToHTTPStatus (FromHTTPStatus status) = 200) /\
  (400 <= status < 500 -> 400 <= ToHTTPStatus (FromHTTPStatus status) < 500) /\
  (500 <= status ->
   ToHTTPStatus (FromHTTPStatus status) = 500 \/
   ToHTTPStatus (FromHTTPStatus status) = 503) /\
  (status < 200 \/ 300 <= status < 400 ->
   ToHTTPStatus (FromHTTPStatus status) = 500).
Proof.
  unfold FromHTTPStatus. unfold_codes.
  split; [|split; [|split]]; intros Hs;
    split_tests; try (vm_compute; intuition congruence); lia.
Qed.

Lemma FromHTTPStatus_keeps_class_witness :
  ToHTTPStatus (FromHTTPStatus 226) = 200 /\
  400 <= ToHTTPStatus (FromHTTPStatus 451) < 500 /\
  ToHTTPStatus (FromHTTPStatus 302) = 500.
Proof.
  split; [|split].
  - apply (proj1 (FromHTTPStatus_keeps_class 226)). lia.
  - apply (proj1 (proj2 (FromHTTPStatus_keeps_class 451))). lia.
  - apply (proj2 (proj2 (proj2 (FromHTTPStatus_keeps_class 302)))). right. lia.
Defined.

(** ** Text form: signs and range *)

Lemma wrap_int_in_range (z : Z) :
  - 2 ^ 63 <= z < 2 ^ 63 -> strconv.wrap_int z = z.
Proof.
  intros H. unfold strconv.wrap_int. rewrite Z.mod_small; lia.
Qed.

Lemma wrap_int_negated (un : Z) :
  0 <= un <= 2 ^ 63 -> strconv.wrap_int (- strconv.wrap_int un) = - un.
Proof.
  intros H. destruct (Z.eq_dec un (2 ^ 63)) as [->|Hne]; [reflexivity|].
  rewrite (wrap_int_in_range un) by lia. apply wrap_int_in_range. lia.
Qed.

(** Digits denote less than ten to the power of their number. *)
Lemma digits_value_lt (s : string) (n : Z) :
  all_digits s = true -> 0 <= n ->
  digits_value s n < (n + 1) * 10 ^ Z.of_nat (String.length s).
Proof.
  revert n. induction s as [|b s IH]; intros n Hd Hn;
    cbn [digits_value all_digits String.length] in *.
  - change (10 ^ Z.of_nat 0) with 1. lia.
  - apply andb_prop in Hd as [Hb Hs]. apply is_digit_true in Hb.
    rewrite Nat2Z.inj_succ, Z.pow_succ_r by lia.
    specialize (IH (n * 10 + (byte_val b - 48)) Hs ltac:(lia)).
    assert (0 < 10 ^ Z.of_nat (String.length s)) by (apply Z.pow_pos_nonneg; lia).
    nia.
Qed.

Lemma short_digits_small (s : string) :
  all_digits s = true -> Z.of_nat (String.length s) < 19 ->
  digits_value s 0 < 2 ^ 63.
Proof.
  intros Hd Hl. pose proof (digits_value_lt s 0 Hd (Z.le_refl 0)) as B.
  assert (10 ^ Z.of_nat (String.length s) <= 10 ^ 18)
    by (apply Z.pow_le_mono_r; lia).
  lia.
Qed.

(** The loop of [ParseUint] gives the number that the digits denote when it
    is below [2^64], and a range error otherwise. *)
Lemma parseUint_loop_fits (s : string) (n : Z) :
  all_digits s = true -> 0 <= n -> digits_value s n < 2 ^ 64 ->
  strconv.parseUint_loop s n = inl (digits_value s n).
Proof.
  revert n. induction s as [|b s IH]; intros n Hd Hn Hv;
    cbn [strconv.parseUint_loop digits_value all_digits] in *; [reflexivity|].
  apply andb_prop in Hd as [Hb Hs]. apply is_digit_true in Hb.
  pose proof (digits_value_ge s (n * 10 + (byte_val b - 48)) Hs) as G.
  destruct (Z.leb_spec 48 (byte_val b)); [|lia].
  destruct (Z.leb_spec (byte_val b) 57); [|lia]. cbn [andb].
  destruct (Z.leb_spec 10 (byte_val b - 48)); [lia|].
  change ((2 ^ 64 - 1) / 10 + 1) with 1844674407370955162.
  destruct (Z.leb_spec 1844674407370955162 n); [lia|].
  unfold strconv.wrap_uint64.
  rewrite (Z.mod_small (n * 10)) by lia.
  rewrite (Z.mod_small (n * 10 + (byte_val b - 48))) by lia.
  destruct (Z.ltb_spec (n * 10 + (byte_val b - 48)) (n * 10)); [lia|].
  destruct (Z.ltb_spec (2 ^ 64 - 1) (n * 10 + (byte_val b - 48))); [lia|].
  cbn [orb]. apply IH; [exact Hs|lia|exact Hv].
Qed.

Lemma parseUint_loop_overflows (s : string) (n : Z) :
  all_digits s = true -> 0 <= n < 2 ^ 64 -> 2 ^ 64 <= digits_value s n ->
  strconv.parseUint_loop s n = inr strconv.ErrRange.
Proof.
  revert n. induction s as [|b s IH]; intros n Hd Hn Hv;
    cbn [strconv.parseUint_loop digits_value all_digits] in *; [lia|].
  apply andb_prop in Hd as [Hb Hs]. apply is_digit_true in Hb.
  destruct (Z.leb_spec 48 (byte_val b)); [|lia].
  destruct (Z.leb_spec (byte_val b) 57); [|lia]. cbn [andb].
  destruct (Z.leb_spec 10 (byte_val b - 48)); [lia|].
  change ((2 ^ 64 - 1) / 10 + 1) with 1844674407370955162.
  destruct (Z.leb_spec 1844674407370955162 n); [reflexivity|].
  unfold strconv.wrap_uint64.
  rewrite (Z.mod_small (n * 10)) by lia.
  destruct (Z_lt_le_dec (n * 10 + (byte_val b - 48)) (2 ^ 64)) as [Fit|Over].
  - rewrite (Z.mod_small (n * 10 + (byte_val b - 48))) by lia.
    destruct (Z.ltb_spec (n * 10 + (byte_val b - 48)) (n * 10)); [lia|].
    destruct (Z.ltb_spec (2 ^ 64 - 1) (n * 10 + (byte_val b - 48))); [lia|].
    cbn [orb]. apply IH; [exact Hs|lia|exact Hv].
  - replace (n * 10 + (byte_val b - 48))
      with (n * 10 + (byte_val b - 48) - 2 ^ 64 + 1 * 2 ^ 64) by lia.
    rewrite Z.mod_add by lia.
    rewrite (Z.mod_small (n * 10 + (byte_val b - 48) - 2 ^ 64)) by lia.
    destruct (Z.ltb_spec (n * 10 + (byte_val b - 48) - 2 ^ 64) (n * 10));
      [reflexivity|lia].
Qed.

Lemma ParseUint_digits (s : string) :
  s <> "" -> all_digits s = true ->
  strconv.ParseUint s
  = if digits_value s 0 <? 2 ^ 64 then inl (digits_value s 0)
    else inr strconv.ErrRange.
Proof.
  intros Hne Hd. unfold strconv.ParseUint.
  destruct s as [|b s]; [contradiction|].
  destruct (Z.ltb_spec (digits_value (String b s) 0) (2 ^ 64)).
  - apply parseUint_loop_fits; [exact Hd|lia|assumption].
  - apply parseUint_loop_overflows; [exact Hd|lia|assumption].
Qed.

(** [Atoi] on digits, with the sign that precedes them. *)
Lemma ParseInt_signed (b : ascii) (r : string) :
  r <> "" -> all_digits r = true ->
  (byte_val b =? 43) || (byte_val b =? 45) = true ->
  strconv.ParseInt (String b r)
  = if byte_val b =? 45
    then (if digits_value r 0 <=? 2 ^ 63 then inl (- digits_value r 0)
          else inr strconv.ErrRange)
    else (if digits_value r 0 <? 2 ^ 63 then inl (digits_value r 0)
          else inr strconv.ErrRange).
Proof.
  intros Hne Hd Hsign. unfold strconv.ParseInt. rewrite Hsign.
  rewrite (ParseUint_digits r Hne Hd).
  pose proof (digits_value_ge r 0 Hd (Z.le_refl 0)) as G.
  change (2 ^ (strconv.intSize - 1)) with (2 ^ 63).
  destruct (Z.ltb_spec (digits_value r 0) (2 ^ 64)).
  - destruct (byte_val b =? 45); cbn [negb andb].
    + destruct (Z.ltb_spec (2 ^ 63) (digits_value r 0)),
               (Z.leb_spec (digits_value r 0) (2 ^ 63)); try lia; [reflexivity|].
      now rewrite wrap_int_negated by lia.
    + destruct (Z.leb_spec (2 ^ 63) (digits_value r 0)),
               (Z.ltb_spec (digits_value r 0) (2 ^ 63)); try lia; [reflexivity|].
      now rewrite wrap_int_in_range by lia.
  - destruct (byte_val b =? 45).
    + destruct (Z.leb_spec (digits_value r 0) (2 ^ 63)); [lia|reflexivity].
    + destruct (Z.ltb_spec (digits_value r 0) (2 ^ 63)); [lia|reflexivity].
Qed.

Lemma ParseInt_unsigned (s : string) :
  s <> "" -> all_digits s = true ->
  strconv.ParseInt s
  = if digits_value s 0 <? 2 ^ 63 then inl (digits_value s 0)
    else inr strconv.ErrRange.
Proof.
  intros Hne Hd. destruct s as [|b r]; [contradiction|].
  pose proof Hd as Hb. cbn [all_digits] in Hb. apply andb_prop in Hb as [Hb _].
  destruct (digit_is_not_sign _ Hb) as [Hm Hp].
  unfold strconv.ParseInt. rewrite Hm, Hp. cbn [orb negb andb].
  rewrite (ParseUint_digits _ Hne Hd).
  pose proof (digits_value_ge _ 0 Hd (Z.le_refl 0)) as G.
  change (2 ^ (strconv.intSize - 1)) with (2 ^ 63).
  destruct (Z.ltb_spec (digits_value (String b r) 0) (2 ^ 64)).
  - destruct (Z.leb_spec (2 ^ 63) (digits_value (String b r) 0)),
             (Z.ltb_spec (digits_value (String b r) 0) (2 ^ 63)); try lia;
      [reflexivity|].
    now rewrite wrap_int_in_range by lia.
  - destruct (Z.ltb_spec (digits_value (String b r) 0) (2 ^ 63)); [lia|reflexivity].
Qed.

(** [Atoi] on a numeral: the number it denotes when that is an [int], a
    range error when it is not. *)
Lemma Atoi_numeral (s : string) :
  numeral s = true ->
  strconv.Atoi s
  = if (minInt <=? numeral_value s) && (numeral_value s <=? maxInt)
    then inl (numeral_value s) else inr strconv.ErrRange.
Proof.
  unfold minInt, maxInt. change (strconv.intSize - 1) with 63.
  intros Hn. destruct s as [|b r]; [discriminate Hn|].
  unfold numeral in Hn. unfold numeral_value, strconv.Atoi.
  destruct ((byte_val b =? 43) || (byte_val b =? 45)) eqn:Hsign.
  - (* a sign, then digits *)
    apply andb_prop in Hn as [Hne Hd].
    assert (Hr : r <> "") by (intros ->; discriminate Hne).
    pose proof (digits_value_ge r 0 Hd (Z.le_refl 0)) as G.
    rewrite (orb_comm (byte_val b =? 45)), Hsign.
    destruct ((0 <? Z.of_nat (String.length (String b r)))
              && (Z.of_nat (String.length (String b r)) <? 19)) eqn:Fast.
    + apply andb_prop in Fast as [_ Fast]. apply Z.ltb_lt in Fast.
      cbn [String.length] in Fast.
      pose proof (short_digits_small r Hd ltac:(lia)) as Small.
      destruct r as [|b1 r]; [contradiction|].
      replace (Z.of_nat (String.length (String b1 r)) <? 1) with false
        by (symmetry; apply Z.ltb_ge; cbn [String.length]; lia).
      cbn [andb]. rewrite atoi_loop_digits by (auto; lia).
      destruct (byte_val b =? 45).
      * rewrite wrap_int_in_range by lia.
        destruct (Z.leb_spec (- 2 ^ 63) (- digits_value (String b1 r) 0)),
                 (Z.leb_spec (- digits_value (String b1 r) 0) (2 ^ 63 - 1));
          try lia; reflexivity.
      * destruct (byte_val b =? 43); [|discriminate Hsign].
        destruct (Z.leb_spec (- 2 ^ 63) (digits_value (String b1 r) 0)),
                 (Z.leb_spec (digits_value (String b1 r) 0) (2 ^ 63 - 1));
          try lia; reflexivity.
    + rewrite (ParseInt_signed b r Hr Hd Hsign).
      destruct (byte_val b =? 45).
      * destruct (Z.leb_spec (digits_value r 0) (2 ^ 63)),
                 (Z.leb_spec (- 2 ^ 63) (- digits_value r 0)),
                 (Z.leb_spec (- digits_value r 0) (2 ^ 63 - 1));
          try lia; reflexivity.
      * destruct (byte_val b =? 43); [|discriminate Hsign].
        destruct (Z.ltb_spec (digits_value r 0) (2 ^ 63)),
                 (Z.leb_spec (- 2 ^ 63) (digits_value r 0)),
                 (Z.leb_spec (digits_value r 0) (2 ^ 63 - 1));
          try lia; reflexivity.
  - (* digits only *)
    apply orb_false_elim in Hsign as [Hp Hm]. rewrite Hm, Hp. cbn [orb andb].
    pose proof (digits_value_ge _ 0 Hn (Z.le_refl 0)) as G.
    destruct ((0 <? Z.of_nat (String.length (String b r)))
              && (Z.of_nat (String.length (String b r)) <? 19)) eqn:Fast.
    + apply andb_prop in Fast as [_ Fast]. apply Z.ltb_lt in Fast.
      pose proof (short_digits_small _ Hn Fast) as Small.
      rewrite atoi_loop_digits by (auto; lia).
      destruct (Z.leb_spec (- 2 ^ 63) (digits_value (String b r) 0)),
               (Z.leb_spec (digits_value (String b r) 0) (2 ^ 63 - 1));
        try lia; reflexivity.
    + rewrite ParseInt_unsigned by (auto; discriminate).
      destruct (Z.ltb_spec (digits_value (String b r) 0) (2 ^ 63)),
               (Z.leb_spec (- 2 ^ 63) (digits_value (String b r) 0)),
               (Z.leb_spec (digits_value (String b r) 0) (2 ^ 63 - 1));
        try lia; reflexivity.
Qed.

(** X9.  What [UnmarshalText] accepts: with the white space around the text
    removed, an empty text gives Success; a decimal numeral (digits, with or
    without a sign before them) that denotes an [int] gives that number; and
    every other text, a numeral out of the range of [int] among them, is
    refused with the format error, which quotes the trimmed text, and leaves
    the receiver as it was. *)
Theorem UnmarshalText_accepts (text : string) (c0 : ExitCode) :
  ExitCode_UnmarshalText c0 text
  = if String.eqb (strings.TrimSpace text) "" then (ExitCodeSuccess, None)
    else if numeral (strings.TrimSpace text)
            && (minInt <=? numeral_value (strings.TrimSpace text))
            && (numeral_value (strings.TrimSpace text) <=? maxInt)
         then (numeral_value (strings.TrimSpace text), None)
         else (c0, Some (InvalidExitCodeText (strings.TrimSpace text))).
Proof.
  rewrite UnmarshalText_trimmed.
  destruct (String.eqb_spec (strings.TrimSpace text) "") as [|Hne]; [reflexivity|].
  destruct (numeral (strings.TrimSpace text)) eqn:Hn.
  - rewrite (Atoi_numeral _ Hn). cbn [andb].
    now destruct ((minInt <=? numeral_value (strings.TrimSpace text))
                  && (numeral_value (strings.TrimSpace text) <=? maxInt)).
  - destruct (Atoi_not_numeral _ Hne Hn) as [e ->]. reflexivity.
Qed.

Lemma last_digit_visible (r : string) (d : ascii) :
  r <> "" -> all_digits r = true ->
  visible (last (list_ascii_of_string r) d) = true.
Proof.
  intros Hne Hd. apply all_digits_Forall in Hd.
  destruct r as [|b r]; [contradiction|]. cbn [list_ascii_of_string] in *.
  rewrite last_cons. rewrite Forall_forall in Hd.
  apply is_digit_visible, Hd, In_last.
Qed.

(** The text of a code of type [int]: a numeral that denotes the code, with
    no white space at either end. *)
Lemma MarshalText_numeral (c : ExitCode) :
  minInt <= c <= maxInt ->
  ExitCode_MarshalText c <> "" /\
  trimmed (ExitCode_MarshalText c) /\
  numeral (ExitCode_MarshalText c) = true /\
  numeral_value (ExitCode_MarshalText c) = c.
Proof.
  unfold minInt, maxInt, ExitCode_MarshalText.
  change (strconv.intSize - 1) with 63. intros H.
  destruct (Z_lt_le_dec c 0) as [Neg|Pos].
  - rewrite (Itoa_negative c Neg).
    destruct (formatBits_positive (- c)) as [Hne [Hd Hv]]; [lia|].
    split; [discriminate|]. split; [|split].
    + unfold trimmed. cbn [list_ascii_of_string]. split; [reflexivity|].
      now apply last_digit_visible.
    + unfold numeral. change (byte_val "-" =? 43) with false.
      change (byte_val "-" =? 45) with true. cbn [orb]. rewrite Hd.
      destruct (String.eqb_spec (strconv.formatBits 20 (- c) "") "");
        [contradiction|reflexivity].
    + unfold numeral_value. change (byte_val "-" =? 45) with true.
      cbv iota. rewrite Hv. lia.
  - destruct (Itoa_digits c) as [Hne [Hd Hv]]; [lia|].
    split; [exact Hne|]. split; [now apply all_digits_trimmed|].
    destruct (strconv.Itoa c) as [|b r] eqn:E; [contradiction|].
    pose proof Hd as Hb. cbn [all_digits] in Hb. apply andb_prop in Hb as [Hb _].
    destruct (digit_is_not_sign _ Hb) as [Hm Hp].
    unfold numeral, numeral_value. rewrite Hm, Hp. cbn [orb]. split; assumption.
Qed.

(** X10.  The text form round-trips for every code of type [int], the
    negative ones as well: parsing the text that [MarshalText] gives for [c]
    yields [c] and no error, whatever the receiver held. *)
Theorem text_round_trip_every_int (c c0 : ExitCode) :
  minInt <= c <= maxInt ->
  ExitCode_UnmarshalText c0 (ExitCode_MarshalText c) = (c, None).
Proof.
  intros H. destruct (MarshalText_numeral c H) as [Hne [Ht [Hn Hv]]].
  rewrite UnmarshalText_trimmed, (TrimSpace_trimmed _ Ht).
  destruct (String.eqb_spec (ExitCode_MarshalText c) ""); [contradiction|].
  rewrite (Atoi_numeral _ Hn), Hv.
  destruct H as [Lo Hi]. apply Z.leb_le in Lo, Hi. rewrite Lo, Hi. reflexivity.
Qed.

Lemma text_round_trip_every_int_witness :
  ExitCode_UnmarshalText 7 (ExitCode_MarshalText (-9223372036854775808))
  = (-9223372036854775808, None).
Proof.
  apply text_round_trip_every_int.
  unfold minInt, maxInt. change (strconv.intSize - 1) with 63. lia.
Defined.

(** ** More on the resolver *)

Lemma chain_ExitError_wrapError (msg : string) (e : error) :
  chain_ExitError (wrapError msg e) = chain_ExitError e.
Proof. reflexivity. Qed.

Lemma chain_matches_wrapError (msg : string) (e t : error) :
  chain_matches (wrapError msg e) t = chain_matches e t.
Proof. reflexivity. Qed.

Lemma net_capability_wrapError (msg : string) (e : error) :
  net_capability (wrapError msg e) = net_capability e.
Proof. reflexivity. Qed.

(** X11.  A resolution is Success in two cases only: the error is nil, or
    the first [ExitError] of its chain carries the code 0.  No other error
    resolves to Success. *)
Theorem resolves_to_Success_iff (err : option error) :
  ResolveExitCode err = ExitCodeSuccess <->
  err = None \/
  exists e x, err = Some e /\ chain_ExitError e = Some x /\ Code x = ExitCodeSuccess.
Proof.
  rewrite ResolveExitCode_spec. split.
  - destruct err as [e|]; [|now left]. intros H. right. exists e.
    unfold resolve_spec in H.
    destruct (chain_ExitError e) as [x|] eqn:Hx.
    { exists x. split; [reflexivity|]. split; [reflexivity|exact H]. }
    exfalso.
    destruct (chain_matches e context.Canceled); [discriminate H|].
    destruct (chain_matches e context.DeadlineExceeded); [discriminate H|].
    destruct (not_exist_condition e); [discriminate H|].
    destruct (permission_condition e); [discriminate H|].
    destruct (net_capability e) as [ne|].
    + destruct (Timeout ne || Temporary ne); discriminate H.
    + unfold sentinel_codes in H. cbn [find fst snd] in H.
      repeat match type of H with
             | context [chain_matches e ?t] => destruct (chain_matches e t)
             end; discriminate H.
  - intros [->|[e [x [-> [Hx Hc]]]]]; [reflexivity|].
    unfold resolve_spec. now rewrite Hx.
Qed.

(** X12.  Wrapping an error with [fmt.Errorf] and [%w] keeps its resolution
    unless the error is one of the two OS conditions, which are recognised on
    the error itself only: a does-not-exist path error resolves to NoInput,
    and the same error once wrapped resolves to Unavailable. *)
Theorem wrapping_keeps_resolution :
  (forall (msg : string) (e : error),
      not_exist_condition e = false -> permission_condition e = false ->
      ResolveExitCode (Some (wrapError msg e)) = ResolveExitCode (Some e)) /\
  (forall op path msg,
      ResolveExitCode (Some (PathError op path (Errno syscall.ENOENT)))
      = ExitCodeNoInput /\
      ResolveExitCode (Some (wrapError msg (PathError op path (Errno syscall.ENOENT))))
      = ExitCodeUnavailable).
Proof.
  split.
  - intros msg e Hn Hp. rewrite !ResolveExitCode_spec. unfold resolve_spec.
    rewrite chain_ExitError_wrapError, net_capability_wrapError, Hn, Hp.
    now rewrite !chain_matches_wrapError.
  - intros op path msg. split; reflexivity.
Qed.

Lemma wrapping_keeps_resolution_witness :
  ResolveExitCode (Some (wrapError "load: not found" ErrNotFound))
  = ResolveExitCode (Some ErrNotFound).
Proof.
  apply (proj1 wrapping_keeps_resolution); reflexivity.
Defined.

(** X13.  An OS error resolves by its errno, bare or held by one of the
    wrappers of package os: ENOENT gives NoInput, EACCES and EPERM give
    NoPermission, and every other errno is taken as a network error, since
    [Errno] has the methods of [net.Error]: TempFail when it reports a timeout
    or a temporary condition, Unavailable otherwise. *)
Theorem OS_errors_by_errno (n : Z) (op path old new sc : string) :
  Forall (fun e =>
            ResolveExitCode (Some e)
            = if n =? syscall.ENOENT then ExitCodeNoInput
              else if (n =? syscall.EACCES) || (n =? syscall.EPERM)
                   then ExitCodeNoPermission
                   else if syscall.Timeout n || syscall.Temporary n
                        then ExitCodeTempFail
                        else ExitCodeUnavailable)
         [ Errno n; PathError op path (Errno n);
           LinkError op old new (Errno n); SyscallError sc (Errno n) ].
Proof.
  repeat (apply Forall_cons;
          [ rewrite ResolveExitCode_spec; unfold resolve_spec;
            cbn -[Z.eqb syscall.Timeout syscall.Temporary];
            destruct (n =? syscall.ENOENT); [reflexivity|];
            destruct ((n =? syscall.EACCES) || (n =? syscall.EPERM));
            [reflexivity|];
            destruct (syscall.Timeout n), (syscall.Temporary n); reflexivity
          |]).
  apply Forall_nil.
Qed.



(** X15.  The category of a resolved code is unknown only when the first
    [ExitError] of the chain carries a code of unknown category: every other
    resolution gives a named code, and every named code has a category. *)
Theorem resolution_category_known (err : option error) :
  Forall (fun kv => ExitCode_Category (fst kv) <> CategoryUnknown) descriptions /\
  (ExitCode_Category (ResolveExitCode err) = CategoryUnknown ->
   exists e x, err = Some e /\ chain_ExitError e = Some x /\
               ExitCode_Category (Code x) = CategoryUnknown).
Proof.
  split.
  - unfold descriptions. repeat (apply Forall_cons; [discriminate|]).
    apply Forall_nil.
  - rewrite ResolveExitCode_spec. destruct err as [e|]; [|discriminate].
    unfold resolve_spec. intros H.
    destruct (chain_ExitError e) as [x|] eqn:Hx.
    { exists e, x. split; [reflexivity|]. split; [exact Hx|exact H]. }
    exfalso.
    destruct (chain_matches e context.Canceled); [discriminate H|].
    destruct (chain_matches e context.DeadlineExceeded); [discriminate H|].
    destruct (not_exist_condition e); [discriminate H|].
    destruct (permission_condition e); [discriminate H|].
    destruct (net_capability e) as [ne|].
    + destruct (Timeout ne || Temporary ne); discriminate H.
    + unfold sentinel_codes in H. cbn [find fst snd] in H.
      repeat match type of H with
             | context [chain_matches e ?t] => destruct (chain_matches e t)
             end; discriminate H.
Qed.

Lemma resolution_category_known_witness :
  exists e x,
    Some (ptrExitError (NewExitError 100 "" None)) = Some e /\
    chain_ExitError e = Some x /\
    ExitCode_Category (Code x) = CategoryUnknown.
Proof.
  apply (proj2 (resolution_category_known
                  (Some (ptrExitError (NewExitError 100 "" None))))).
  reflexivity.
Defined.

(** ** Construction *)

Lemma errors_is_ExitError (e : ExitError) (t : error) :
  errors_is (ptrExitError e) t
  = match Cause e with
    | Some c => errors_is c t
    | None => false
    end.
Proof. destruct e as [code message [c|]]; reflexivity. Qed.

Lemma append_not_empty_r (s t : string) : t <> "" -> s ++ t <> "".
Proof.
  intros Ht. destruct s as [|b s]; [exact Ht|discriminate].
Qed.

Lemma append_not_empty_l (s t : string) : s <> "" -> s ++ t <> "".
Proof.
  intros Hs. destruct s as [|b s]; [contradiction|discriminate].
Qed.

(** X16.  [WithCode] gives nil for a nil error.  For any other error it
    gives an [ExitError] with the code asked, the error as its cause and the
    text of the error as its own text, also when that text is empty; the
    result resolves to the code asked whatever the error alone resolves to,
    and [errors.Is] matches it with the targets that match the error. *)
Theorem WithCode_binds (errno_messages : list string) (code : ExitCode) :
  WithCode errno_messages None code = None /\
  forall e : error,
    exists w : ExitError,
      WithCode errno_messages (Some e) code = Some w /\
      Code w = code /\
      ExitError_Unwrap w = Some e /\
      ExitError_Error errno_messages w = Error errno_messages e /\
      ResolveExitCode (Some (ptrExitError w)) = code /\
      (forall t, plain_target t = true ->
                 errors_Is (Some (ptrExitError w)) (Some t)
                 = errors_Is (Some e) (Some t)).
Proof.
  split; [reflexivity|]. intros e.
  exists (mkExitError code (Error errno_messages e) (Some e)).
  split; [reflexivity|]. split; [reflexivity|]. split; [reflexivity|].
  split; [|split].
  - cbn [ExitError_Error].
    destruct (String.eqb_spec (Error errno_messages e) "") as [E|E];
      cbn [negb]; [now rewrite E | reflexivity].
  - reflexivity.
  - intros t _. unfold errors_Is. now rewrite errors_is_ExitError.
Qed.

(** X17.  The code of each helper is the code that its sentinel resolves to:
    the error of a helper, its sentinel alone and its sentinel wrapped with
    [%w] all resolve to the helper's code. *)
Theorem helpers_resolve_as_sentinel (message wrapping : string) :
  Forall (fun h =>
            let '(helper, code, sentinel) := h in
            ResolveExitCode (Some (ptrExitError (helper message))) = code /\
            ResolveExitCode (Some sentinel) = code /\
            ResolveExitCode (Some (wrapError wrapping sentinel)) = code)
         helpers.
Proof.
  unfold helpers.
  repeat (apply Forall_cons;
          [split; [reflexivity|]; split; reflexivity|]).
  apply Forall_nil.
Qed.

(** X18.  The text of a helper's error is never empty.  The two helpers that
    format their argument render "<resource> not found" and
    "permission denied: <action>"; the other five render their message, and
    the text of their sentinel when the message is empty. *)
Theorem helper_texts (errno_messages : list string) (message : string) :
  Forall (fun h => ExitError_Error errno_messages (fst (fst h) message) <> "")
         helpers /\
  ExitError_Error errno_messages (NotFoundError message) = message ++ " not found" /\
  ExitError_Error errno_messages (PermissionError message)
  = "permission denied: " ++ message /\
  Forall (fun h =>
            let '(helper, sentinel) := h in
            ExitError_Error errno_messages (helper message)
            = if String.eqb message "" then Error errno_messages sentinel
              else message)
         [ (UsageError, ErrUsage); (ValidationError, ErrValidation);
           (ConfigError, ErrConfig); (AuthError, ErrAuth);
           (TempFailError, ErrTempFail) ].
Proof.
  assert (N : ExitError_Error errno_messages (NotFoundError message)
              = message ++ " not found").
  { unfold NotFoundError, NewExitError. cbn [ExitError_Error].
    destruct (String.eqb_spec (message ++ " not found") "") as [E|_];
      [|reflexivity].
    exfalso. revert E. apply append_not_empty_r. discriminate. }
  assert (P : ExitError_Error errno_messages (PermissionError message)
              = "permission denied: " ++ message) by reflexivity.
  assert (F : forall code sentinel,
             ExitError_Error errno_messages
               (NewExitError code message (Some sentinel))
             = if String.eqb message "" then Error errno_messages sentinel
               else message).
  { intros code sentinel. unfold NewExitError. cbn [ExitError_Error].
    destruct (String.eqb message ""); reflexivity. }
  split; [|split; [exact N|split; [exact P|]]].
  - unfold helpers.
    repeat (apply Forall_cons;
            [ cbn [fst];
              first [ rewrite N; apply append_not_empty_r; discriminate
                    | rewrite P; discriminate
                    | match goal with
                      | |- ExitError_Error _ (?h _) <> _ => unfold h
                      end;
                      rewrite F; destruct (String.eqb_spec message "");
                      [discriminate|assumption] ]
            |]).
    apply Forall_nil.
  - repeat (apply Forall_cons; [apply F|]). apply Forall_nil.
Qed.

(** X19.  The error that [Newf] makes has no cause: [Unwrap] gives nil, the
    error resolves to its code, [errors.Is] matches it with none of the
    context errors and sentinels, its record has no cause member, and its
    text is the formatted message, or the description of the code when the
    formatted message is empty. *)
Theorem Newf_has_no_cause (any : Type) (Sprintf : string -> list any -> string)
    (errno_messages : list string)
    (code : ExitCode) (format : string) (args : list any) :
  ExitError_Unwrap (Newf any Sprintf code format args) = None /\
  ResolveExitCode (Some (ptrExitError (Newf any Sprintf code format args))) = code /\
  Forall (fun t =>
            errors_Is (Some (ptrExitError (Newf any Sprintf code format args)))
                      (Some t) = false)
         (context.Canceled :: context.DeadlineExceeded :: map fst sentinel_codes) /\
  json_get "cause"
    (ExitError_MarshalJSON errno_messages (Newf any Sprintf code format args))
  = None /\
  ExitError_Error errno_messages (Newf any Sprintf code format args)
  = if String.eqb (Sprintf format args) "" then ExitCode_String code
    else Sprintf format args.
Proof.
  split; [reflexivity|]. split; [reflexivity|]. split; [|split].
  - cbn [map fst sentinel_codes].
    repeat (apply Forall_cons; [reflexivity|]). apply Forall_nil.
  - reflexivity.
  - unfold Newf, NewExitError. cbn [ExitError_Error].
    destruct (String.eqb (Sprintf format args) ""); reflexivity.
Qed.

(** ** The structured record *)



(** ** Classification across functions *)

(** X21.  The user errors against the categories: a code counts as a user
    error exactly when it is 2, 83 or 85, or lies in the category
    "user_error" outside 69 to 76 and 79.  So the category holds codes that
    are no user errors, and three user errors lie outside it. *)
Theorem user_error_and_category (c : ExitCode) :
  ExitCode_IsUserError c = true <->
  c = 2 \/ c = 83 \/ c = 85 \/
  (ExitCode_Category c = CategoryUserError /\ ~ (69 <= c <= 76 \/ c = 79)).
Proof.
  unfold ExitCode_IsUserError, ExitCode_Category,
    ExitCodeInvalidArgument, ExitCodeCmdUsage, ExitCodeDataError, ExitCodeNoInput,
    ExitCodeNoUser, ExitCodeNoHost, ExitCodeNoPermission, ExitCodeConfig,
    ExitCodeNotFound, ExitCodeValidation.
  split.
  - split_tests; intros Hu; try discriminate Hu;
      first [ left; lia | right; left; lia | right; right; left; lia
            | right; right; right; split; [reflexivity|lia] ].
  - intros [Hc|[Hc|[Hc|[Hc Hn]]]]; revert Hc;
      split_tests; intros Hc; try reflexivity; try discriminate Hc; lia.
Qed.

(** X22.  HTTP statuses, retries and blame: the code of a status is
    retriable exactly for 429 and for the statuses from 501 up, and it counts
    as a user error exactly for the statuses 400 to 499 other than 401, 403,
    409, 423 and 429. *)
Theorem FromHTTPStatus_retry_and_blame (status : Z) :
  (ExitCode_IsRetriable (FromHTTPStatus status) = true <->
   status = 429 \/ 501 <= status) /\
  (ExitCode_IsUserError (FromHTTPStatus status) = true <->
   400 <= status < 500 /\ ~ In status [401; 403; 409; 423; 429]).
Proof.
  unfold FromHTTPStatus. split.
  - split.
    + split_tests; intros Hs; try discriminate Hs; lia.
    + intros Hs. split_tests; try reflexivity; lia.
  - split.
    + split_tests; intros Hs; try discriminate Hs;
        (split; [lia|]); cbn [In]; lia.
    + cbn [In]. intros [Hs Hn]. split_tests; try reflexivity; exfalso; lia.
Qed.

(** ** The process exit status *)

(** X23.  [OSExitCode] of an error whose chain holds no [ExitError] is one of
    fourteen codes, all from 1 to 130: never 0, and always a valid exit
    status.  With an [ExitError] nothing bounds it: every integer is the
    [OSExitCode] of some error. *)
Theorem OSExitCode_values :
  (forall e : error,
      chain_ExitError e = None ->
      In (OSExitCode (Some e))
         [1; 2; 65; 66; 69; 74; 75; 77; 78; 81; 82; 83; 85; 130]) /\
  (forall code : Z, exists err : option error, OSExitCode err = code).
Proof.
  split.
  - intros e Hx. unfold OSExitCode. rewrite ResolveExitCode_spec.
    unfold resolve_spec. rewrite Hx.
    destruct (chain_matches e context.Canceled); [cbn; tauto|].
    destruct (chain_matches e context.DeadlineExceeded); [cbn; tauto|].
    destruct (not_exist_condition e); [cbn; tauto|].
    destruct (permission_condition e); [cbn; tauto|].
    destruct (net_capability e) as [ne|].
    + destruct (Timeout ne || Temporary ne); cbn; tauto.
    + unfold sentinel_codes. cbn [find fst snd].
      repeat match goal with
             | |- context [if chain_matches e ?t then _ else _] =>
                 destruct (chain_matches e t); [cbn; tauto|]
             end.
      cbn; tauto.
  - intros code. exists (Some (ptrExitError (NewExitError code "" None))).
    reflexivity.
Qed.

Lemma OSExitCode_values_witness :
  In (OSExitCode (Some (PathError "open" "config.json" (Errno syscall.EACCES))))
     [1; 2; 65; 66; 69; 74; 75; 77; 78; 81; 82; 83; 85; 130].
Proof.
  apply (proj1 OSExitCode_values). reflexivity.
Defined.
